(** * Offline layer of the card-scanner PWA (scan-api-pwa.js)

    A shallow embedding of the service worker (install / activate / fetch
    handlers), of the background drain [syncScans] and of the widget method
    [saveForOffline], together with the properties of the caching policy and
    of the pending-scan queue.

    The platform objects the script talks to (CacheStorage, the network, the
    pending-scan object store, the SyncManager) are modelled as explicit
    state; what the environment answers (network outcomes, failures of a
    store removal, the clock) is an oracle passed to each handler. *)

From Stdlib Require Import ZArith.
From stdpp Require Import gmap strings list fin_maps relations.

Set Warnings "-clear-no-such-hyp".

Local Open Scope string_scope.
Local Open Scope list_scope.

(** ** JavaScript values carried through the script untouched *)

Inductive JsValue :=
  | JUndefined
  | JString (s : string)
  | JNumber (n : Z)
  | JMapping (kvs : list (string * string)).

#[global] Instance JsValue_eq_dec : EqDecision JsValue.
Proof. solve_decision. Defined.

(** A plain object: property name to value; reading a missing property
    gives [undefined]. *)
Abbreviation JsObject := (gmap string JsValue).

Definition get (o : JsObject) (k : string) : JsValue := default JUndefined (o !! k).

(** [haystack.includes(needle)] *)
Fixpoint includes (needle haystack : string) : bool :=
  String.prefix needle haystack ||
  match haystack with
  | EmptyString => false
  | String _ rest => includes needle rest
  end.

(** A network response: the script reads [status] and [ok]. *)
Record Response := { status : Z; payload : JsValue }.

#[global] Instance Response_eq_dec : EqDecision Response.
Proof. solve_decision. Defined.

(** [response.ok]: status in the range 200-299. *)
Definition ok (r : Response) : bool := (200 <=? status r)%Z && (status r <=? 299)%Z.

(** ** The service worker *)

Module ServiceWorker.

Definition CACHE_NAME : string := "mobicard-scanner-v1".

Definition ASSETS_TO_CACHE : list string :=
  [ "/";
    "/index.html";
    "/styles.css";
    "/mobicard-scanner.js";
    "https://code.jquery.com/jquery-3.7.1.min.js";
    "https://cdn.jsdelivr.net/npm/bootstrap@4.6.2/dist/css/bootstrap.min.css";
    "https://cdn.jsdelivr.net/npm/bootstrap@4.6.2/dist/js/bootstrap.bundle.min.js" ].

(** The intercepted request ([event.request]). URLs are taken as written
    (resolving a path against the origin is left to the platform); the
    caches compare them without their fragment, see [request_key]. *)
Record Request := {
  req_url : string;
  req_method : string;
  req_headers : JsValue;
  req_body : JsValue
}.

(** Identity of a request in a cache: method and URL. *)
Abbreviation RequestKey := (string * string)%type.

(** A URL without its fragment (what follows the first [#], character 35):
    the caches compare URLs that way. *)
Fixpoint strip_fragment (url : string) : string :=
  match url with
  | EmptyString => EmptyString
  | String c rest =>
      if Ascii.eqb c (Ascii.ascii_of_nat 35) then EmptyString else String c (strip_fragment rest)
  end.

Definition request_key (r : Request) : RequestKey :=
  (req_method r, strip_fragment (req_url r)).

(** One named cache, and the origin's CacheStorage: the named caches in
    creation order (names are unique, see [wf_storage]). *)
Abbreviation Cache := (gmap (string * string) Response).
Abbreviation CacheStorage := (list (string * gmap (string * string) Response)).

Definition wf_storage (s : CacheStorage) : Prop := NoDup s.*1.

(** [caches.keys()] *)
Definition caches_keys (s : CacheStorage) : list string := s.*1.

(** [caches.match(request)]: the first hit over all caches, in creation order. *)
Fixpoint caches_match (s : CacheStorage) (k : RequestKey) : option Response :=
  match s with
  | [] => None
  | (_, c) :: s' =>
      match c !! k with
      | Some r => Some r
      | None => caches_match s' k
      end
  end.

(** [caches.delete(name)] *)
Definition caches_delete (name : string) (s : CacheStorage) : CacheStorage :=
  filter (λ e, e.1 ≠ name) s.

(** [caches.open(name)]: creates the cache when it does not exist yet. *)
Definition caches_open (name : string) (s : CacheStorage) : CacheStorage :=
  if decide (name ∈ s.*1) then s else s ++ [(name, ∅)].

(** Contents of the cache called [name] (nothing when there is none). *)
Fixpoint cache_of (name : string) (s : CacheStorage) : Cache :=
  match s with
  | [] => ∅
  | (n, c) :: s' => if decide (n = name) then c else cache_of name s'
  end.

Fixpoint cache_update (name : string) (f : Cache → Cache) (s : CacheStorage)
  : CacheStorage :=
  match s with
  | [] => []
  | (n, c) :: s' =>
      if decide (n = name) then (n, f c) :: s'
      else (n, c) :: cache_update name f s'
  end.

(** The cache called [name], opened, gets the entry [k]. *)
Definition cache_store (name : string) (k : RequestKey) (r : Response)
    (s : CacheStorage) : CacheStorage :=
  cache_update name (λ c, <[k := r]> c) (caches_open name s).

(** [caches.open(name).then(cache => cache.put(request, response))]: the
    cache is opened, and [put] stores the response of a GET request; for any
    other method it rejects and nothing is stored. No cache therefore ever
    holds a request that is not a GET, which is why a lookup needs no test
    of the method. *)
Definition cache_put (name : string) (request : Request) (response : Response)
    (s : CacheStorage) : CacheStorage :=
  if decide (req_method request = "GET") then
    cache_store name (request_key request) response s
  else caches_open name s.

(** The network: what a request is answered with ([None]: the fetch is
    rejected), possibly depending on the requests issued before it. *)
Definition Network := list Request → Request → option Response.

Inductive Phase := Installing | Waiting | Active | Redundant.

#[global] Instance Phase_eq_dec : EqDecision Phase.
Proof. solve_decision. Defined.

(** State of the worker and of what it acts on. *)
Record Worker := {
  caches : CacheStorage;
  net_log : list Request;     (* requests sent to the network so far *)
  phase : Phase;
  skip_waiting : bool;        (* self.skipWaiting() was called *)
  claimed : bool              (* self.clients.claim() was called *)
}.

Definition set_caches (s : CacheStorage) (w : Worker) : Worker :=
  {| caches := s; net_log := net_log w; phase := phase w;
     skip_waiting := skip_waiting w; claimed := claimed w |}.

Definition set_net_log (l : list Request) (w : Worker) : Worker :=
  {| caches := caches w; net_log := l; phase := phase w;
     skip_waiting := skip_waiting w; claimed := claimed w |}.

Definition set_phase (p : Phase) (w : Worker) : Worker :=
  {| caches := caches w; net_log := net_log w; phase := p;
     skip_waiting := skip_waiting w; claimed := claimed w |}.

(** *** install *)

(** The request [cache.addAll] builds from a URL of the list. *)
Definition asset_request (u : string) : Request :=
  {| req_url := u; req_method := "GET";
     req_headers := JUndefined; req_body := JUndefined |}.

(** All the requests of an [addAll] are issued; each outcome is recorded. *)
Fixpoint fetch_each (net : Network) (log : list Request) (rs : list Request)
  : list Request * list (Request * option Response) :=
  match rs with
  | [] => (log, [])
  | r :: rs' =>
      let o := net log r in
      let '(log', os) := fetch_each net (log ++ [r]) rs' in
      (log', (r, o) :: os)
  end.

(** A response [addAll] accepts: an [ok] status other than 206. *)
Definition addable (resp : Response) : bool :=
  ok resp && negb (status resp =? 206)%Z.

(** An [addAll] goes through only if every request got a response it
    accepts. *)
Fixpoint all_fetched (os : list (Request * option Response))
  : option (list (Request * Response)) :=
  match os with
  | [] => Some []
  | (r, Some resp) :: os' =>
      if addable resp then
        match all_fetched os' with
        | Some l => Some ((r, resp) :: l)
        | None => None
        end
      else None
  | (_, None) :: _ => None
  end.

(** The outcomes of the requests of the install's [addAll]. *)
Definition install_outcomes (net : Network) (w : Worker)
  : list (Request * option Response) :=
  (fetch_each net (net_log w) (asset_request <$> ASSETS_TO_CACHE)).2.

(** A fetch that [addAll] counts as failed: rejected, or answered with a
    status outside 200-299 or with 206. *)
Definition fetch_failed (o : option Response) : bool :=
  match o with
  | Some resp => negb (addable resp)
  | None => true
  end.

(** What [addAll] writes: the responses, under the GET requests it made. *)
Definition put_each (name : string) (l : list (Request * Response))
    (s : CacheStorage) : CacheStorage :=
  foldl (λ s' e, cache_store name (request_key e.1) e.2 s') s l.

(** [self.skipWaiting()] *)
Definition skipWaiting (w : Worker) : Worker :=
  {| caches := caches w; net_log := net_log w; phase := Waiting;
     skip_waiting := true; claimed := claimed w |}.

(** The install handler: open the cache, [addAll] the assets, then
    [skipWaiting]. A rejected [addAll] writes nothing and rejects the promise
    given to [waitUntil]: the worker is discarded. *)
Definition install (net : Network) (w : Worker) : Worker :=
  let opened := caches_open CACHE_NAME (caches w) in
  let '(log', os) := fetch_each net (net_log w) (asset_request <$> ASSETS_TO_CACHE) in
  match all_fetched os with
  | Some l =>
      skipWaiting (set_net_log log' (set_caches (put_each CACHE_NAME l opened) w))
  | None =>
      set_phase Redundant (set_net_log log' (set_caches opened w))
  end.

(** *** activate *)

(** [cacheNames.map(cacheName => { if (cacheName !== CACHE_NAME) return
    caches.delete(cacheName); })] over [caches.keys()] *)
Definition purge (s : CacheStorage) : CacheStorage :=
  foldl (λ s' cacheName,
           if decide (cacheName ≠ CACHE_NAME) then caches_delete cacheName s'
           else s')
        s (caches_keys s).

(** [self.clients.claim()] *)
Definition clients_claim (w : Worker) : Worker :=
  {| caches := caches w; net_log := net_log w; phase := Active;
     skip_waiting := skip_waiting w; claimed := true |}.

(** The activate handler: the deletions, and then the claim. *)
Definition activate (w : Worker) : Worker :=
  clients_claim (set_caches (purge (caches w)) w).

(** *** fetch *)

(** What [event.respondWith] is given: a response, or a rejected promise. *)
Inductive FetchResult :=
  | Responded (r : Response)
  | Rejected.

Definition key_is_api (k : RequestKey) : bool := includes "/api/" k.2.

Definition is_api (r : Request) : bool := includes "/api/" (req_url r).

(** No entry of the cache is keyed by an API request. *)
Definition api_free (c : Cache) : Prop :=
  map_Forall (λ k _, key_is_api k = false) c.

(** The fetch handler. The lookup is by the request's key, so without the
    fragment, while the [/api/] test reads the whole URL. The [put] is not
    awaited by the handler: a step is the handler together with the [put]
    it started. *)
Definition fetch_handler (net : Network) (w : Worker) (request : Request)
  : Worker * FetchResult :=
  match caches_match (caches w) (request_key request) with
  | Some response => (w, Responded response)
  | None =>
      let w' := set_net_log (net_log w ++ [request]) w in
      match net (net_log w) request with
      | None => (w', Rejected)
      | Some response =>
          if is_api request then (w', Responded response)
          else if (status response =? 200)%Z then
            let responseToCache := response in
            (set_caches
               (cache_put CACHE_NAME request responseToCache (caches w'))
               w',
             Responded response)
          else (w', Responded response)
      end
  end.

(** *** Life cycle: install, then activate, then fetch events *)

Definition init_worker (s0 : CacheStorage) : Worker :=
  {| caches := s0; net_log := []; phase := Installing;
     skip_waiting := false; claimed := false |}.

Inductive sw_step (net : Network) : Worker → Worker → Prop :=
  | step_install w :
      phase w = Installing → sw_step net w (install net w)
  | step_activate w :
      phase w = Waiting → sw_step net w (activate w)
  | step_fetch w request :
      phase w = Active → sw_step net w (fetch_handler net w request).1.

Definition reachable (net : Network) (s0 : CacheStorage) (w : Worker) : Prop :=
  rtc (sw_step net) (init_worker s0) w.

(** What the life cycle maintains: cache names stay unique, an installed
    worker has its cache, and an active worker has no other cache. *)
Record lifecycle_inv (w : Worker) : Prop := {
  inv_wf : wf_storage (caches w);
  inv_waiting : phase w = Waiting → CACHE_NAME ∈ caches_keys (caches w);
  inv_active : phase w = Active → caches_keys (caches w) = [CACHE_NAME]
}.

End ServiceWorker.

(** ** The pending-scan queue: the store, the drain and the widget's enqueue *)

Module ScanQueue.

(** The object store ['pending']: records in key order, and the key
    generator that numbers them. *)
Record Database := {
  key_generator : Z;
  pending : list JsObject
}.

Definition empty_db : Database := {| key_generator := 1; pending := [] |}.

(** Modelled from the spec: the object-store operations behind
    [openScansDatabase()] and [this.openDatabase()], which the source calls
    but does not define. [add] assigns a unique id and appends. *)
Definition db_add (record : JsObject) (d : Database) : Database :=
  {| key_generator := key_generator d + 1;
     pending := pending d ++ [<["id" := JNumber (key_generator d)]> record] |}.

(** Modelled from the spec: [getAll] of the missing store wrapper, the
    ordered sequence of the pending records. *)
Definition db_getAll (d : Database) : list JsObject := pending d.

(** Modelled from the spec: [delete] of the missing store wrapper, removal
    by id, a no-op when no record has that id. *)
Definition db_delete (id : JsValue) (d : Database) : Database :=
  {| key_generator := key_generator d;
     pending := filter (λ r, get r "id" ≠ id) (pending d) |}.

(** A call [fetch(url, {method, headers, body})]. *)
Record FetchCall := {
  call_url : JsValue;
  call_method : string;
  call_headers : JsValue;
  call_body : JsValue
}.

#[global] Instance FetchCall_eq_dec : EqDecision FetchCall.
Proof. solve_decision. Defined.

(** What a drain does, in order. *)
Inductive Event :=
  | EvFetch (call : FetchCall) (outcome : option Response)
  | EvDelete (id : JsValue) (done : bool)
  | EvConsoleError.

#[global] Instance Event_eq_dec : EqDecision Event.
Proof. solve_decision. Defined.

(** The environment of a drain: how the network answers a call ([None]: the
    fetch throws) and whether a removal from the store goes through, both
    possibly depending on what happened before. *)
Record Env := {
  net_fetch : list Event → FetchCall → option Response;
  delete_ok : list Event → JsValue → bool
}.

Record SyncState := {
  db : Database;
  trace : list Event
}.

(** The request sent for a pending record. *)
Definition resubmission (scan : JsObject) : FetchCall :=
  {| call_url := get scan "url";
     call_method := "POST";
     call_headers := get scan "headers";
     call_body := get scan "body" |}.

(** Body of the [for] loop of [syncScans]: one [try]/[catch]. *)
Definition sync_one (env : Env) (st : SyncState) (scan : JsObject) : SyncState :=
  let call := resubmission scan in
  match net_fetch env (trace st) call with
  | None =>
      {| db := db st;
         trace := trace st ++ [EvFetch call None; EvConsoleError] |}
  | Some response =>
      let fetched := trace st ++ [EvFetch call (Some response)] in
      if ok response then
        if delete_ok env fetched (get scan "id") then
          {| db := db_delete (get scan "id") (db st);
             trace := fetched ++ [EvDelete (get scan "id") true] |}
        else
          {| db := db st;
             trace := fetched ++ [EvDelete (get scan "id") false; EvConsoleError] |}
      else {| db := db st; trace := fetched |}
  end.

Definition syncScans (env : Env) (st : SyncState) : SyncState :=
  let pendingScans := db_getAll (db st) in
  foldl (sync_one env) st pendingScans.

(** The drain as a step relation: the records still to visit, and the state. *)
Inductive drain_step (env : Env)
  : list JsObject * SyncState → list JsObject * SyncState → Prop :=
  | drain_visit scan rest st :
      drain_step env (scan :: rest, st) (rest, sync_one env st scan).

Definition drain_start (st : SyncState) : list JsObject * SyncState :=
  (db_getAll (db st), st).

(** The calls sent to the network, in order. *)
Fixpoint fetches (t : list Event) : list FetchCall :=
  match t with
  | [] => []
  | EvFetch call _ :: t' => call :: fetches t'
  | _ :: t' => fetches t'
  end.

(** What the environment answers when [scan]'s turn comes in state [st]. *)
Definition acknowledged (env : Env) (st : SyncState) (scan : JsObject) : bool :=
  match net_fetch env (trace st) (resubmission scan) with
  | Some response => ok response
  | None => false
  end.

Definition removal_succeeds (env : Env) (st : SyncState) (scan : JsObject) : bool :=
  match net_fetch env (trace st) (resubmission scan) with
  | Some response =>
      delete_ok env (trace st ++ [EvFetch (resubmission scan) (Some response)])
                (get scan "id")
  | None => false
  end.

Definition ids (l : list JsObject) : list JsValue := (λ r, get r "id") <$> l.

(** The records of the store have pairwise distinct ids. *)
Definition wf_db (d : Database) : Prop := NoDup (ids (pending d)).

(** [t] has, at position [j], an ok answer to the resubmission of [scan],
    immediately followed by the removal of [scan] ([done]: whether the
    removal went through). *)
Definition removal_after_ack (t : list Event) (j : nat) (scan : JsObject)
    (done : bool) : Prop :=
  ∃ response,
    t !! j = Some (EvFetch (resubmission scan) (Some response)) ∧
    ok response = true ∧
    t !! S j = Some (EvDelete (get scan "id") done).

(** *** The widget *)

(** The fields of the component that [saveForOffline] reads. *)
Record Component := {
  syncRegistration : bool    (* [this.syncRegistration] has been set *)
}.

(** What [saveForOffline] acts on: the store, and the tags given to
    [sync.register]. *)
Record Platform := {
  store : Database;
  sync_registered : list string
}.

Definition pending_record (scanData : JsObject) (now : Z) : JsObject :=
  <["url" := get scanData "url"]>
    (<["headers" := get scanData "headers"]>
       (<["body" := get scanData "body"]>
          (<["timestamp" := JNumber now]> ∅))).

(** [onLine] is [navigator.onLine], [now] is [Date.now()]. *)
Definition saveForOffline (onLine : bool) (now : Z) (this : Component)
    (scanData : JsObject) (p : Platform) : Platform * bool :=
  if negb onLine then
    let db' := db_add (pending_record scanData now) (store p) in
    let registered :=
      if syncRegistration this then sync_registered p ++ ["sync-scans"]
      else sync_registered p in
    ({| store := db'; sync_registered := registered |}, true)
  else (p, false).

(** Scan data with a string [url] and a [headers] mapping. *)
Definition typed_scan (scanData : JsObject) : Prop :=
  (∃ u, get scanData "url" = JString u) ∧
  (∃ h, get scanData "headers" = JMapping h).

(** The layout of a stored record: an id below the key generator, the
    [url], [headers] and [body] of the scan data, and a timestamp. *)
Definition stored_shape (d : Database) (r : JsObject) : Prop :=
  dom r = {[ "id"; "url"; "headers"; "body"; "timestamp" ]} ∧
  (∃ k, r !! "id" = Some (JNumber k) ∧ (1 ≤ k < key_generator d)%Z) ∧
  (∃ u, r !! "url" = Some (JString u)) ∧
  (∃ h, r !! "headers" = Some (JMapping h)) ∧
  is_Some (r !! "body") ∧
  (∃ t, r !! "timestamp" = Some (JNumber t)).

(** The store over time: records come in through [saveForOffline] and go
    out through [syncScans]. *)
Inductive queue_step : Database → Database → Prop :=
  | queue_save onLine now this scanData p :
      typed_scan scanData →
      queue_step (store p) (store (saveForOffline onLine now this scanData p).1)
  | queue_sync env st :
      queue_step (db st) (db (syncScans env st)).

(** What holds after the records [visited] have had their turn, [events]
    being what the drain has done so far. *)
Record drain_inv (st0 : SyncState) (visited : list JsObject) (st : SyncState)
    (events : list Event) : Prop := {
  di_trace : trace st = trace st0 ++ events;
  di_delete : ∀ i id done,
    events !! i = Some (EvDelete id done) →
    ∃ j scan, i = S j ∧ scan ∈ visited ∧ get scan "id" = id ∧
              removal_after_ack events j scan done;
  di_gone : ∀ r,
    r ∈ pending (db st0) →
    r ∈ pending (db st) ∨ (r ∈ visited ∧ ∃ j, removal_after_ack events j r true);
  di_failed : ∀ r i,
    r ∈ pending (db st0) →
    events !! i = Some (EvDelete (get r "id") false) →
    r ∈ pending (db st)
}.

(** What the store maintains over time. *)
Record queue_inv (d : Database) : Prop := {
  qi_keys : (1 ≤ key_generator d)%Z;
  qi_wf : wf_db d;
  qi_shape : Forall (stored_shape d) (pending d)
}.

End ScanQueue.

(** ** Notions used to state what the caches hold *)

Module CacheNotions.
Import ServiceWorker.

(** Every response of the cache has a status in 200-299. *)
Definition all_ok (c : Cache) : Prop := map_Forall (λ _ r, ok r = true) c.

(** What the network says to [request] after the requests [log]. *)
Definition network_answer (net : Network) (log : list Request) (request : Request)
  : FetchResult :=
  match net log request with
  | Some response => Responded response
  | None => Rejected
  end.

(** The answer to [request] is one the fetch handler does not keep: the
    fetch is rejected, the request is an API call, or the status is not 200. *)
Definition not_kept (net : Network) (log : list Request) (request : Request) : bool :=
  match net log request with
  | Some response => is_api request || negb (status response =? 200)%Z
  | None => true
  end.

End CacheNotions.

(** ** The sync event of the worker *)

Module Background.
Import ScanQueue.

(** The listener of the [sync] event: a drain for the tag ['sync-scans'],
    nothing for any other tag. *)
Definition sync_listener (env : Env) (tag : string) (st : SyncState) : SyncState :=
  if decide (tag = "sync-scans") then syncScans env st else st.

(** All the fetches of a drain throw. *)
Definition network_down (env : Env) : Prop :=
  ∀ t call, net_fetch env t call = None.

(** Every resubmission is answered ok and every removal goes through. *)
Definition all_delivered (env : Env) : Prop :=
  (∀ t call, ∃ response, net_fetch env t call = Some response ∧ ok response = true) ∧
  (∀ t id, delete_ok env t id = true).

(** Every resubmission is answered, with a status outside 200-299. *)
Definition all_refused (env : Env) : Prop :=
  ∀ t call, ∃ response, net_fetch env t call = Some response ∧ ok response = false.

(** What a drain of [scans] writes to the trace when every fetch throws. *)
Definition failed_attempts (scans : list JsObject) : list Event :=
  scans ≫= λ scan, [EvFetch (resubmission scan) None; EvConsoleError].

Definition is_fetch (e : Event) : bool :=
  match e with EvFetch _ _ => true | _ => false end.

End Background.

(** ** The widget: connectivity, install prompt, rendering *)

Module Widget.
Import ScanQueue.

(** A [beforeinstallprompt] event; [outcome] is what its [userChoice]
    resolves to. *)
Record PromptEvent := { outcome : string }.

(** What the shadow root holds. The template of [render] is static but for
    the offline indicator, so the markup is represented by whether the
    indicator is in it. *)
Inductive Node :=
  | Markup (offline_indicator : bool)
  | InstallButton.

#[global] Instance Node_eq_dec : EqDecision Node.
Proof. solve_decision. Defined.

Inductive Effect :=
  | PreventDefault
  | Prompt
  | ConsoleLog (message : string).

#[global] Instance Effect_eq_dec : EqDecision Effect.
Proof. solve_decision. Defined.

(** The fields of the element: [component] holds [this.syncRegistration]. *)
Record Scanner := {
  component : Component;
  isPWA : bool;
  networkStatus : string;
  deferredPrompt : option PromptEvent;
  shadowRoot : list Node;
  effects : list Effect
}.

Definition register_sync (p : Platform) : Platform :=
  {| store := store p; sync_registered := sync_registered p ++ ["sync-scans"] |}.

Definition handleNetworkChange (status : string) (this : Scanner) (p : Platform)
  : Scanner * Platform :=
  let this' :=
    {| component := component this; isPWA := isPWA this;
       networkStatus := status; deferredPrompt := deferredPrompt this;
       shadowRoot := shadowRoot this; effects := effects this |} in
  if decide (status = "online") then
    if syncRegistration (component this) then (this', register_sync p)
    else (this', p)
  else (this', p).

Definition showInstallPrompt (this : Scanner) : Scanner :=
  match deferredPrompt this with
  | Some _ =>
      if negb (isPWA this) then
        {| component := component this; isPWA := isPWA this;
           networkStatus := networkStatus this;
           deferredPrompt := deferredPrompt this;
           shadowRoot := shadowRoot this ++ [InstallButton];
           effects := effects this |}
      else this
  | None => this
  end.

(** The listener of [beforeinstallprompt] that [init] installs. *)
Definition on_beforeinstallprompt (e : PromptEvent) (this : Scanner) : Scanner :=
  showInstallPrompt
    {| component := component this; isPWA := isPWA this;
       networkStatus := networkStatus this;
       deferredPrompt := Some e;
       shadowRoot := shadowRoot this;
       effects := effects this ++ [PreventDefault] |}.

(** One call of [installPWA], run to its end. *)
Definition installPWA (this : Scanner) : Scanner :=
  match deferredPrompt this with
  | Some e =>
      {| component := component this; isPWA := isPWA this;
         networkStatus := networkStatus this;
         deferredPrompt := None;
         shadowRoot := shadowRoot this;
         effects :=
           effects this ++ [Prompt] ++
           (if decide (outcome e = "accepted") then [ConsoleLog "PWA installed"]
            else []) |}
  | None => this
  end.

(** A press on an install button of the shadow root ([onclick]). *)
Definition click_install (this : Scanner) : Scanner :=
  if decide (InstallButton ∈ shadowRoot this) then installPWA this else this.

(** [this.shadowRoot.innerHTML = ...]: the markup replaces what was there. *)
Definition render (this : Scanner) : Scanner :=
  {| component := component this; isPWA := isPWA this;
     networkStatus := networkStatus this;
     deferredPrompt := deferredPrompt this;
     shadowRoot := [Markup (bool_decide (networkStatus this = "offline"))];
     effects := effects this |}.

Definition connectedCallback (this : Scanner) : Scanner := render this.

(** [this.syncRegistration = registration], once the worker is ready. *)
Definition set_registration (this : Scanner) : Scanner :=
  {| component := {| syncRegistration := true |}; isPWA := isPWA this;
     networkStatus := networkStatus this;
     deferredPrompt := deferredPrompt this;
     shadowRoot := shadowRoot this; effects := effects this |}.

(** What can happen to the widget and to the platform it acts on. *)
Inductive widget_step : Scanner * Platform → Scanner * Platform → Prop :=
  | widget_network status this p :
      widget_step (this, p) (handleNetworkChange status this p)
  | widget_save onLine now scanData this p :
      widget_step (this, p)
        (this, (saveForOffline onLine now (component this) scanData p).1)
  | widget_ready this p :
      widget_step (this, p) (set_registration this, p)
  | widget_prompt e this p :
      widget_step (this, p) (on_beforeinstallprompt e this, p)
  | widget_click this p :
      widget_step (this, p) (click_install this, p)
  | widget_connected this p :
      widget_step (this, p) (connectedCallback this, p).

Definition count_effect (x : Effect) (l : list Effect) : nat :=
  length (filter (λ y, y = x) l).

(** The number of prompt events the element holds: one or none. *)
Definition prompts_held (this : Scanner) : nat :=
  match deferredPrompt this with
  | Some _ => 1
  | None => 0
  end.

End Widget.

(** ** Concrete inputs used to exercise the statements below *)

Module Scenario.
Import ServiceWorker.

Definition r200 : Response := {| status := 200; payload := JString "body { margin: 0 }" |}.
Definition r404 : Response := {| status := 404; payload := JString "not found" |}.
Definition r500 : Response := {| status := 500; payload := JString "server error" |}.

(** Two generations left behind by earlier versions of the worker. *)
Definition old_storage : CacheStorage :=
  [ ("mobicard-scanner-v0", {[ ("GET", "/styles.css") := r404 ]});
    ("legacy", ∅) ].

(** A network that answers everything with [r200]. *)
Definition net_up : Network := λ _ _, Some r200.

(** A network on which the jQuery CDN is unreachable. *)
Definition net_cdn_down : Network := λ _ r,
  if decide (req_url r = "https://code.jquery.com/jquery-3.7.1.min.js")
  then None else Some r200.

Definition installed : Worker := install net_up (init_worker old_storage).
Definition active : Worker := activate installed.

Definition get_styles : Request := asset_request "/styles.css".

Definition get_logo : Request :=
  {| req_url := "/img/logo.png"; req_method := "GET";
     req_headers := JUndefined; req_body := JUndefined |}.

Definition post_scan : Request :=
  {| req_url := "https://api.mobicard.com/api/v1/scan"; req_method := "POST";
     req_headers := JMapping [("Content-Type", "application/json")];
     req_body := JString "{}" |}.

(** Three scans saved while offline, then drained. *)
Import ScanQueue.

Definition scan_data (card : string) : JsObject :=
  {[ "url" := JString "https://api.mobicard.com/v1/scan";
     "headers" := JMapping [("Authorization", "Bearer token")];
     "body" := JString card ]}.

Definition widget : Component := {| syncRegistration := true |}.
Definition widget_without_sync : Component := {| syncRegistration := false |}.

Definition platform0 : Platform := {| store := empty_db; sync_registered := [] |}.
Definition platform1 : Platform :=
  (saveForOffline false 1700000000000 widget (scan_data "card-1") platform0).1.
Definition platform2 : Platform :=
  (saveForOffline false 1700000000500 widget (scan_data "card-2") platform1).1.
Definition platform3 : Platform :=
  (saveForOffline false 1700000000900 widget (scan_data "card-3") platform2).1.

Definition entry (id : Z) (card : string) (now : Z) : JsObject :=
  <["id" := JNumber id]> (pending_record (scan_data card) now).

Definition e1 : JsObject := entry 1 "card-1" 1700000000000.
Definition e2 : JsObject := entry 2 "card-2" 1700000000500.
Definition e3 : JsObject := entry 3 "card-3" 1700000000900.

Definition queued : SyncState := {| db := store platform3; trace := [] |}.

(** The server rejects the first card; removals go through. *)
Definition env_first_fails : Env :=
  {| net_fetch := λ _ call,
       if decide (call_body call = JString "card-1") then Some r500 else Some r200;
     delete_ok := λ _ _, true |}.

(** The server accepts everything; the removal of record 2 throws. *)
Definition env_removal_fails : Env :=
  {| net_fetch := λ _ _, Some r200;
     delete_ok := λ _ id, bool_decide (id ≠ JNumber 2) |}.

End Scenario.

(** ** More concrete inputs: drains and widgets *)

Module MoreScenario.
Import ScanQueue Widget Scenario.

Definition env_delivering : Env :=
  {| net_fetch := λ _ _, Some r200; delete_ok := λ _ _, true |}.

Definition env_down : Env :=
  {| net_fetch := λ _ _, None; delete_ok := λ _ _, true |}.

Definition env_refusing : Env :=
  {| net_fetch := λ _ _, Some r500; delete_ok := λ _ _, true |}.

Definition accepted : PromptEvent := {| outcome := "accepted" |}.

Import ServiceWorker.

(** A page address whose fragment happens to contain [/api/]. *)
Definition get_docs : Request :=
  {| req_url := "/index.html#/api/docs"; req_method := "GET";
     req_headers := JUndefined; req_body := JUndefined |}.


Definition r206 : Response := {| status := 206; payload := JString "partial" |}.

(** A network that answers everything with a partial content. *)
Definition net_partial : Network := λ _ _, Some r206.

Definition scanner (c : Component) (standalone : bool) : Scanner :=
  {| component := c; isPWA := standalone; networkStatus := "online";
     deferredPrompt := None; shadowRoot := []; effects := [] |}.

End MoreScenario.

(** * Properties of the service worker *)

Module CacheProofs.
Import ServiceWorker.

(** ** URLs and their fragment *)

Section Urls.

Lemma prefix_strip_fragment needle url :
  String.prefix needle (strip_fragment url) = true →
  String.prefix needle url = true.
Proof.
  revert needle. induction url as [|c rest IH]; intros needle; [done|].
  simpl strip_fragment.
  destruct (Ascii.eqb c (Ascii.ascii_of_nat 35)).
  - destruct needle; [done|]. simpl. discriminate.
  - destruct needle as [|a needle]; [done|]. simpl.
    destruct (Ascii.ascii_dec a c); [apply IH|done].
Qed.

(** What the URL without its fragment includes, the URL includes. *)
Lemma includes_strip_fragment needle url :
  includes needle (strip_fragment url) = true → includes needle url = true.
Proof.
  induction url as [|c rest IH]; [done|].
  pose proof (prefix_strip_fragment needle (String c rest)) as Hprefix.
  simpl strip_fragment in *.
  destruct (Ascii.eqb c (Ascii.ascii_of_nat 35)).
  - simpl. rewrite orb_false_r. intros Hpre.
    destruct needle; [done|]. simpl in Hpre. discriminate.
  - intros Hinc.
    change (includes needle (String c (strip_fragment rest)))
      with (String.prefix needle (String c (strip_fragment rest))
            || includes needle (strip_fragment rest)) in Hinc.
    change (includes needle (String c rest))
      with (String.prefix needle (String c rest) || includes needle rest).
    apply orb_true_iff in Hinc as [Hpre|Hinc]; apply orb_true_iff.
    + left. by apply Hprefix.
    + right. by apply IH.
Qed.

(** The key of a request that is not an API call has no [/api/] either. *)
Lemma key_not_api (r : Request) :
  is_api r = false → key_is_api (request_key r) = false.
Proof.
  unfold is_api, key_is_api. simpl. intros Hno.
  destruct (includes "/api/" (strip_fragment (req_url r))) eqn:Hkey; [|done].
  apply includes_strip_fragment in Hkey. congruence.
Qed.

End Urls.

(** ** The operations of the CacheStorage *)

Section Storage.
Implicit Types (s : CacheStorage) (name n : string) (k : RequestKey).

Lemma caches_open_keys_in name s : name ∈ caches_keys (caches_open name s).
Proof.
  unfold caches_open, caches_keys. case_decide as Hin; [done|].
  rewrite fmap_app. set_solver.
Qed.

Lemma caches_open_present name s :
  name ∈ caches_keys s → caches_open name s = s.
Proof. unfold caches_open, caches_keys. intros Hin. by rewrite decide_True. Qed.

Lemma caches_open_wf name s : wf_storage s → wf_storage (caches_open name s).
Proof.
  unfold caches_open, wf_storage. intros Hnd. case_decide as Hin; [done|].
  rewrite fmap_app. apply NoDup_app. split_and!; [done| |].
  - intros x Hx Hx'. apply list_elem_of_singleton in Hx'. by subst.
  - apply NoDup_singleton.
Qed.

Lemma cache_of_app name s s' :
  name ∉ caches_keys s → cache_of name (s ++ s') = cache_of name s'.
Proof.
  unfold caches_keys. induction s as [|[n c] s IH]; intros Hnot; [done|].
  simpl in *. apply not_elem_of_cons in Hnot as [Hne Hnot].
  rewrite decide_False by done. by apply IH.
Qed.

Lemma cache_of_app_l name s s' :
  name ∈ caches_keys s → cache_of name (s ++ s') = cache_of name s.
Proof.
  unfold caches_keys. induction s as [|[n c] s IH]; intros Hin; simpl in *.
  - by apply elem_of_nil in Hin.
  - case_decide; [done|]. apply IH.
    apply elem_of_cons in Hin as [?|?]; [congruence|done].
Qed.

Lemma cache_of_absent name s : name ∉ caches_keys s → cache_of name s = ∅.
Proof.
  unfold caches_keys. induction s as [|[n c] s IH]; intros Hnot; [done|].
  simpl in *. apply not_elem_of_cons in Hnot as [Hne Hnot].
  rewrite decide_False by done. by apply IH.
Qed.

(** Opening a cache does not change what any cache holds. *)
Lemma cache_of_open name n s : cache_of n (caches_open name s) = cache_of n s.
Proof.
  unfold caches_open. case_decide as Hin; [done|].
  destruct (decide (n ∈ caches_keys s)) as [Hn|Hn].
  - by apply cache_of_app_l.
  - rewrite cache_of_app, (cache_of_absent n s) by done.
    simpl. by case_decide.
Qed.

Lemma cache_update_keys name f s :
  caches_keys (cache_update name f s) = caches_keys s.
Proof.
  unfold caches_keys. induction s as [|[n c] s IH]; [done|].
  simpl. case_decide; csimpl; [done|]. by rewrite IH.
Qed.

Lemma cache_of_update name f s :
  name ∈ caches_keys s →
  cache_of name (cache_update name f s) = f (cache_of name s).
Proof.
  unfold caches_keys. induction s as [|[n c] s IH]; intros Hin; simpl in *.
  - by apply elem_of_nil in Hin.
  - case_decide; simpl.
    + by rewrite decide_True.
    + rewrite decide_False by done. apply IH. set_solver.
Qed.

Lemma cache_of_update_ne name n f s :
  n ≠ name → cache_of n (cache_update name f s) = cache_of n s.
Proof.
  intros Hne. induction s as [|[n' c] s IH]; [done|].
  simpl. case_decide; simpl; [|by rewrite IH].
  subst. by rewrite !decide_False.
Qed.

Lemma cache_store_keys name k r s :
  caches_keys (cache_store name k r s) = caches_keys (caches_open name s).
Proof. apply cache_update_keys. Qed.

Lemma cache_store_wf name k r s : wf_storage s → wf_storage (cache_store name k r s).
Proof.
  intros Hwf. unfold wf_storage. fold (caches_keys (cache_store name k r s)).
  rewrite cache_store_keys. by apply caches_open_wf.
Qed.

Lemma cache_of_store name k r s :
  cache_of name (cache_store name k r s) = <[k := r]> (cache_of name s).
Proof.
  unfold cache_store. rewrite cache_of_update by apply caches_open_keys_in.
  by rewrite cache_of_open.
Qed.

Lemma cache_of_store_ne name n k r s :
  n ≠ name → cache_of n (cache_store name k r s) = cache_of n s.
Proof.
  intros Hne. unfold cache_store.
  by rewrite cache_of_update_ne, cache_of_open.
Qed.

(** The request-level [put]: what it does to names and contents. *)
Lemma cache_put_keys name (request : Request) r s :
  caches_keys (cache_put name request r s) = caches_keys (caches_open name s).
Proof. unfold cache_put. case_decide; [apply cache_store_keys|done]. Qed.

Lemma cache_put_wf name (request : Request) r s :
  wf_storage s → wf_storage (cache_put name request r s).
Proof.
  intros Hwf. unfold cache_put.
  case_decide; [by apply cache_store_wf|by apply caches_open_wf].
Qed.

Lemma cache_of_put name (request : Request) r s :
  cache_of name (cache_put name request r s)
  = if decide (req_method request = "GET")
    then <[request_key request := r]> (cache_of name s)
    else cache_of name s.
Proof.
  unfold cache_put. case_decide; [apply cache_of_store|apply cache_of_open].
Qed.

Lemma cache_of_put_ne name n (request : Request) r s :
  n ≠ name → cache_of n (cache_put name request r s) = cache_of n s.
Proof.
  intros Hne. unfold cache_put.
  case_decide; [by apply cache_of_store_ne|apply cache_of_open].
Qed.

(** A storage with a single cache is that cache. *)
Lemma single_generation name s :
  caches_keys s = [name] → s = [(name, cache_of name s)].
Proof.
  unfold caches_keys. destruct s as [|[n c] [|? ?]]; intros Heq; simplify_eq/=.
  by rewrite decide_True.
Qed.

Lemma caches_match_single name s k :
  caches_keys s = [name] → caches_match s k = cache_of name s !! k.
Proof.
  intros Hs. rewrite (single_generation name s Hs) at 1. simpl.
  by destruct (cache_of name s !! k).
Qed.

(** A hit of [caches.match] is an entry of some cache. *)
Lemma caches_match_Some s k r :
  caches_match s k = Some r → ∃ n c, (n, c) ∈ s ∧ c !! k = Some r.
Proof.
  induction s as [|[n c] s IH]; [done|]. simpl.
  destruct (c !! k) eqn:Hc.
  - intros [= ->]. exists n, c. split; [left|done].
  - intros Hm. destruct (IH Hm) as (n' & c' & Hin & Hl).
    exists n', c'. split; [by right|done].
Qed.

Lemma filter_iff_on {A} (P Q : A → Prop)
    `{!∀ x, Decision (P x), !∀ x, Decision (Q x)} (l : list A) :
  (∀ x, x ∈ l → P x ↔ Q x) → filter P l = filter Q l.
Proof.
  induction l as [|x l IH]; intros Hiff; [done|].
  rewrite !filter_cons, IH.
  - destruct (decide (P x)) as [HP|HP], (decide (Q x)) as [HQ|HQ]; try done.
    + exfalso. apply HQ, Hiff; [left|done].
    + exfalso. apply HP, Hiff; [left|done].
  - intros y Hy. apply Hiff. by right.
Qed.

(** The map over [caches.keys()] of the activate handler leaves exactly
    the caches called [CACHE_NAME]. *)
Lemma purge_fold (names : list string) s :
  foldl (λ s' cacheName,
           if decide (cacheName ≠ CACHE_NAME) then caches_delete cacheName s'
           else s') s names
  = filter (λ e, e.1 = CACHE_NAME ∨ e.1 ∉ names) s.
Proof.
  revert s. induction names as [|n names IH]; intros s; simpl.
  - symmetry. induction s as [|e s IHs]; [done|].
    rewrite filter_cons_True; [by f_equal|]. right. apply not_elem_of_nil.
  - rewrite IH. case_decide as Hn.
    + unfold caches_delete. rewrite list_filter_filter.
      apply list_filter_iff. intros e. rewrite not_elem_of_cons. naive_solver.
    + subst n.
      apply list_filter_iff. intros e. rewrite not_elem_of_cons.
      destruct (decide (e.1 = CACHE_NAME)); naive_solver.
Qed.

Lemma purge_filter s : purge s = filter (λ e, e.1 = CACHE_NAME) s.
Proof.
  unfold purge. rewrite purge_fold. apply filter_iff_on.
  intros e He. split; [|by left].
  intros [?|Hnot]; [done|]. destruct Hnot.
  unfold caches_keys. by apply list_elem_of_fmap_2.
Qed.

Lemma filter_name_absent name s :
  name ∉ s.*1 → filter (λ e, e.1 = name) s = [].
Proof.
  induction s as [|[n c] s IH]; intros Hnot; [done|]. csimpl in *.
  apply not_elem_of_cons in Hnot as [Hne Hnot].
  rewrite filter_cons_False by (simpl; congruence). by apply IH.
Qed.

Lemma filter_name_unique name s :
  wf_storage s → name ∈ caches_keys s →
  filter (λ e, e.1 = name) s = [(name, cache_of name s)].
Proof.
  unfold wf_storage, caches_keys.
  induction s as [|[n c] s IH]; intros Hnd Hin; csimpl in *.
  - by apply elem_of_nil in Hin.
  - apply NoDup_cons in Hnd as [Hn Hnd]. case_decide as Heq.
    + subst. rewrite filter_cons_True by done.
      by rewrite filter_name_absent.
    + rewrite filter_cons_False by done. apply IH; [done|].
      apply elem_of_cons in Hin as [?|?]; [congruence|done].
Qed.

Lemma purge_keys_only s n : n ∈ caches_keys (purge s) → n = CACHE_NAME.
Proof.
  rewrite purge_filter. unfold caches_keys. intros Hin.
  apply list_elem_of_fmap in Hin as (e & -> & He).
  by apply list_elem_of_filter in He as [? _].
Qed.

(** The purge leaves the contents of the current cache alone. *)
Lemma cache_of_purge s : cache_of CACHE_NAME (purge s) = cache_of CACHE_NAME s.
Proof.
  rewrite purge_filter. induction s as [|[n c] s IH]; [done|].
  rewrite filter_cons. simpl. case_decide as Hn; simpl.
  - by rewrite decide_True.
  - done.
Qed.

Lemma purge_single s :
  wf_storage s → CACHE_NAME ∈ caches_keys s →
  purge s = [(CACHE_NAME, cache_of CACHE_NAME s)].
Proof. intros. rewrite purge_filter. by apply filter_name_unique. Qed.

End Storage.

(** ** install *)

Section Install.
Implicit Types (net : Network) (w : Worker) (s : CacheStorage).

Lemma fetch_each_log net log rs : (fetch_each net log rs).1 = log ++ rs.
Proof.
  revert log. induction rs as [|r rs IH]; intros log; simpl.
  - by rewrite app_nil_r.
  - specialize (IH (log ++ [r])). destruct (fetch_each net (log ++ [r]) rs).
    simpl in *. by rewrite IH, <-app_assoc.
Qed.

Lemma fetch_each_requests net log rs : (fetch_each net log rs).2.*1 = rs.
Proof.
  revert log. induction rs as [|r rs IH]; intros log; simpl; [done|].
  specialize (IH (log ++ [r])). destruct (fetch_each net (log ++ [r]) rs).
  csimpl in *. by rewrite IH.
Qed.

(** Each outcome is the network's answer to that request, after the
  requests sent before it. *)
Lemma fetch_each_lookup net log (rs : list Request) i r :
  rs !! i = Some r →
  (fetch_each net log rs).2 !! i = Some (r, net (log ++ take i rs) r).
Proof.
  revert log i. induction rs as [|r0 rs IH]; intros log i Hr; [done|].
  simpl. specialize (IH (log ++ [r0])).
  destruct (fetch_each net (log ++ [r0]) rs) as [log' os] eqn:Heach.
  destruct i as [|i]; simpl in *.
  - simplify_eq. by rewrite app_nil_r.
  - rewrite (IH i Hr). by rewrite <-app_assoc.
Qed.

(** When [addAll] goes through it stores, for every request, the response
    that request got. *)
Lemma all_fetched_Some os l :
  all_fetched os = Some l → os = (λ e, (e.1, Some e.2)) <$> l.
Proof.
  revert l. induction os as [|[r [resp|]] os IH]; intros l; simpl.
  - by intros [= <-].
  - destruct (addable resp); [|done]. destruct (all_fetched os) as [l'|]; [|done].
    intros [= <-]. csimpl. by rewrite <-(IH l').
  - done.
Qed.

Lemma all_fetched_None os :
  all_fetched os = None ↔ ∃ e, e ∈ os ∧ fetch_failed e.2 = true.
Proof.
  induction os as [|[r [resp|]] os IH]; simpl.
  - split; [done|]. intros (e & He & _). by apply elem_of_nil in He.
  - destruct (addable resp) eqn:Hok.
    + destruct (all_fetched os) as [l'|].
      * split; [done|]. intros (e & He & Hf).
        apply elem_of_cons in He as [->|He].
        { simpl in Hf. by rewrite Hok in Hf. }
        assert (Some l' = None) as Hn by (apply IH; by exists e). done.
      * split; [|done]. intros _. destruct IH as [IH _].
        destruct (IH eq_refl) as (e & He & Hf). exists e. split; [by right|done].
    + split; [|done]. intros _. exists (r, Some resp).
      split; [left|]. simpl. by rewrite Hok.
  - split; [|done]. intros _. exists (r, None). split; [left|done].
Qed.

Lemma put_each_keys name l s :
  name ∈ caches_keys s → caches_keys (put_each name l s) = caches_keys s.
Proof.
  unfold put_each. revert s. induction l as [|e l IH]; intros s Hin; [done|].
  simpl. rewrite IH.
  - by rewrite cache_store_keys, caches_open_present.
  - rewrite cache_store_keys. apply caches_open_keys_in.
Qed.

Lemma put_each_wf name l s : wf_storage s → wf_storage (put_each name l s).
Proof.
  unfold put_each. revert s. induction l as [|e l IH]; intros s Hwf; [done|].
  simpl. by apply IH, cache_store_wf.
Qed.

Lemma cache_of_put_each name l s :
  cache_of name (put_each name l s)
  = foldl (λ c e, <[request_key e.1 := e.2]> c) (cache_of name s) l.
Proof.
  unfold put_each. revert s. induction l as [|e l IH]; intros s; [done|].
  simpl. by rewrite IH, cache_of_store.
Qed.

Lemma cache_of_put_each_ne name n l s :
  n ≠ name → cache_of n (put_each name l s) = cache_of n s.
Proof.
  intros Hne. unfold put_each. revert s.
  induction l as [|e l IH]; intros s; [done|].
  simpl. by rewrite IH, cache_of_store_ne.
Qed.

Lemma foldl_insert_absent (l : list (Request * Response)) (c : Cache) k :
  k ∉ request_key <$> l.*1 →
  foldl (λ c e, <[request_key e.1 := e.2]> c) c l !! k = c !! k.
Proof.
  revert c. induction l as [|e l IH]; intros c Hk; [done|].
  csimpl in *. apply not_elem_of_cons in Hk as [Hne Hk].
  rewrite IH by done. by rewrite lookup_insert_ne.
Qed.

Lemma foldl_insert_lookup (l : list (Request * Response)) (c : Cache) r resp :
  NoDup (request_key <$> l.*1) → (r, resp) ∈ l →
  foldl (λ c e, <[request_key e.1 := e.2]> c) c l !! request_key r = Some resp.
Proof.
  revert c. induction l as [|e l IH]; intros c Hnd Hin.
  - by apply elem_of_nil in Hin.
  - csimpl in *. apply NoDup_cons in Hnd as [Hfresh Hnd].
    apply elem_of_cons in Hin as [<-|Hin].
    + simpl. rewrite foldl_insert_absent by done. apply lookup_insert_eq.
    + by apply IH.
Qed.

Lemma foldl_insert_api_free (l : list (Request * Response)) (c : Cache) :
  Forall (λ e, is_api e.1 = false) l → api_free c →
  api_free (foldl (λ c e, <[request_key e.1 := e.2]> c) c l).
Proof.
  revert c. induction l as [|e l IH]; intros c Hl Hc; [done|].
  apply Forall_cons in Hl as [He Hl]. simpl. apply IH; [done|].
  apply map_Forall_insert_2; [|done]. by apply key_not_api.
Qed.

(** None of the pre-cached assets is under [/api/], and no two of them
    share a key. *)
Lemma assets_not_api :
  Forall (λ r, is_api r = false) (asset_request <$> ASSETS_TO_CACHE).
Proof. repeat constructor. Qed.

Lemma assets_distinct :
  NoDup (request_key <$> (asset_request <$> ASSETS_TO_CACHE)).
Proof. by apply (bool_decide_unpack _); vm_compute. Qed.

Lemma install_log net w :
  net_log (install net w) = net_log w ++ (asset_request <$> ASSETS_TO_CACHE).
Proof.
  unfold install.
  pose proof (fetch_each_log net (net_log w) (asset_request <$> ASSETS_TO_CACHE)) as Hlog.
  destruct (fetch_each net (net_log w) (asset_request <$> ASSETS_TO_CACHE)) as [log' os].
  simpl in Hlog. by destruct (all_fetched os).
Qed.

Lemma install_wf net w : wf_storage (caches w) → wf_storage (caches (install net w)).
Proof.
  intros Hwf. unfold install.
  destruct (fetch_each net (net_log w) (asset_request <$> ASSETS_TO_CACHE)) as [log' os].
  destruct (all_fetched os); simpl.
  - by apply put_each_wf, caches_open_wf.
  - by apply caches_open_wf.
Qed.

Lemma install_keys net w :
  caches_keys (caches (install net w)) = caches_keys (caches_open CACHE_NAME (caches w)).
Proof.
  unfold install.
  destruct (fetch_each net (net_log w) (asset_request <$> ASSETS_TO_CACHE)) as [log' os].
  destruct (all_fetched os); simpl; [|done].
  apply put_each_keys, caches_open_keys_in.
Qed.

Lemma install_phase net w :
  phase (install net w) = Waiting ∨ phase (install net w) = Redundant.
Proof.
  unfold install.
  destruct (fetch_each net (net_log w) (asset_request <$> ASSETS_TO_CACHE)) as [log' os].
  destruct (all_fetched os); simpl; auto.
Qed.

Lemma install_api_free net w :
  api_free (cache_of CACHE_NAME (caches w)) →
  api_free (cache_of CACHE_NAME (caches (install net w))).
Proof.
  intros Hfree. unfold install.
  pose proof (fetch_each_requests net (net_log w) (asset_request <$> ASSETS_TO_CACHE)) as Hreq.
  destruct (fetch_each net (net_log w) (asset_request <$> ASSETS_TO_CACHE)) as [log' os].
  change (os.*1 = asset_request <$> ASSETS_TO_CACHE) in Hreq.
  destruct (all_fetched os) as [l|] eqn:Hall; simpl.
  - rewrite cache_of_put_each, cache_of_open.
    apply foldl_insert_api_free; [|done].
    apply all_fetched_Some in Hall. subst os.
    rewrite <-list_fmap_compose in Hreq.
    pose proof assets_not_api as Hassets. rewrite <-Hreq in Hassets.
    by apply Forall_fmap in Hassets.
  - by rewrite cache_of_open.
Qed.

End Install.

(** ** fetch *)

Section Fetch.
Implicit Types (net : Network) (w : Worker) (request : Request).
Implicit Types (name : string) (k : RequestKey).

(** Whatever a cache holds, [caches.match] finds a response for. *)
Lemma cache_of_hit name (s : CacheStorage) k r :
  cache_of name s !! k = Some r → is_Some (caches_match s k).
Proof.
  induction s as [|[n c] s IH]; simpl; [by rewrite lookup_empty|].
  destruct (c !! k) eqn:Hc; [eauto|].
  case_decide; [congruence|done].
Qed.

Lemma fetch_handler_hit net w request response :
  caches_match (caches w) (request_key request) = Some response →
  fetch_handler net w request = (w, Responded response).
Proof. intros Hhit. unfold fetch_handler. by rewrite Hhit. Qed.

Lemma fetch_handler_phase net w request :
  phase (fetch_handler net w request).1 = phase w.
Proof.
  unfold fetch_handler.
  repeat (case_match; simpl; try done).
Qed.

Lemma fetch_handler_keys net w request :
  CACHE_NAME ∈ caches_keys (caches w) →
  caches_keys (caches (fetch_handler net w request).1) = caches_keys (caches w).
Proof.
  intros Hin. unfold fetch_handler.
  repeat (case_match; simpl; try done).
  by rewrite cache_put_keys, caches_open_present.
Qed.

Lemma fetch_handler_wf net w request :
  wf_storage (caches w) → wf_storage (caches (fetch_handler net w request).1).
Proof.
  intros Hwf. unfold fetch_handler.
  repeat (case_match; simpl; try done).
  by apply cache_put_wf.
Qed.

(** The handler never replaces or drops an entry of the current cache. *)
Lemma fetch_handler_keeps net w request k stored :
  cache_of CACHE_NAME (caches w) !! k = Some stored →
  cache_of CACHE_NAME (caches (fetch_handler net w request).1) !! k = Some stored.
Proof.
  intros Hk. unfold fetch_handler.
  destruct (caches_match (caches w) (request_key request)) eqn:Hmatch; [done|].
  repeat (case_match; simpl; try done).
  rewrite cache_of_put. case_decide; [|done].
  rewrite lookup_insert_ne; [done|].
  intros <-. apply cache_of_hit in Hk as [? Hk]. congruence.
Qed.

(** An API response is never put in a cache. *)
Lemma fetch_handler_api_untouched net w request :
  is_api request = true → caches (fetch_handler net w request).1 = caches w.
Proof.
  intros Hapi. unfold fetch_handler. rewrite Hapi.
  repeat (case_match; simpl; try done).
Qed.

Lemma fetch_handler_api_free net w request :
  api_free (cache_of CACHE_NAME (caches w)) →
  api_free (cache_of CACHE_NAME (caches (fetch_handler net w request).1)).
Proof.
  intros Hfree. unfold fetch_handler.
  destruct (caches_match (caches w) (request_key request)); [done|].
  destruct (net (net_log w) request) as [response|]; [|done].
  destruct (is_api request) eqn:Hapi; [done|].
  destruct (status response =? 200)%Z; [|done]. simpl.
  rewrite cache_of_put. case_decide; [|done].
  apply map_Forall_insert_2; [|done]. by apply key_not_api.
Qed.

End Fetch.

(** ** The life cycle *)

Section LifeCycle.
Implicit Types (net : Network) (w : Worker).

Lemma init_inv (s0 : CacheStorage) : wf_storage s0 → lifecycle_inv (init_worker s0).
Proof. intros Hwf. by split. Qed.

Lemma activate_caches w :
  wf_storage (caches w) → CACHE_NAME ∈ caches_keys (caches w) →
  caches (activate w) = [(CACHE_NAME, cache_of CACHE_NAME (caches w))].
Proof. intros Hwf Hin. simpl. by apply purge_single. Qed.

Lemma step_inv net w w' : sw_step net w w' → lifecycle_inv w → lifecycle_inv w'.
Proof.
  intros Hstep [Hwf Hwait Hact]. destruct Hstep as [w Hph|w Hph|w request Hph].
  - split.
    + by apply install_wf.
    + intros _. rewrite install_keys. apply caches_open_keys_in.
    + intros Hactive. destruct (install_phase net w); congruence.
  - assert (caches (activate w) = [(CACHE_NAME, cache_of CACHE_NAME (caches w))])
      as Heq by (apply activate_caches; [done|by apply Hwait]).
    split; rewrite Heq.
    + unfold wf_storage. apply NoDup_singleton.
    + intros _. unfold caches_keys. set_solver.
    + done.
  - split.
    + by apply fetch_handler_wf.
    + rewrite fetch_handler_phase. congruence.
    + intros _. rewrite fetch_handler_keys; [by apply Hact|].
      rewrite (Hact Hph). set_solver.
Qed.

Lemma reachable_inv net (s0 : CacheStorage) w :
  wf_storage s0 → reachable net s0 w → lifecycle_inv w.
Proof.
  intros Hwf Hreach.
  eapply (rtc_ind_r (λ w, lifecycle_inv w)); [| |exact Hreach].
  - by apply init_inv.
  - intros y z _ Hstep IH. by eapply step_inv.
Qed.

Lemma step_api_free net w w' :
  sw_step net w w' →
  api_free (cache_of CACHE_NAME (caches w)) →
  api_free (cache_of CACHE_NAME (caches w')).
Proof.
  intros Hstep Hfree. destruct Hstep as [w Hph|w Hph|w request Hph].
  - by apply install_api_free.
  - simpl. by rewrite cache_of_purge.
  - by apply fetch_handler_api_free.
Qed.

Lemma reachable_api_free net (s0 : CacheStorage) w :
  api_free (cache_of CACHE_NAME s0) → reachable net s0 w →
  api_free (cache_of CACHE_NAME (caches w)).
Proof.
  intros Hfree Hreach.
  eapply (rtc_ind_r (λ w, api_free (cache_of CACHE_NAME (caches w))));
    [| |exact Hreach].
  - done.
  - intros y z _ Hstep IH. by eapply step_api_free.
Qed.

(** No step touches an entry whose key has [/api/] in it. *)
Lemma step_api_keys net w w' k :
  sw_step net w w' → key_is_api k = true →
  cache_of CACHE_NAME (caches w') !! k = cache_of CACHE_NAME (caches w) !! k.
Proof.
  intros Hstep Hk. destruct Hstep as [w Hph|w Hph|w request Hph].
  - unfold install.
    pose proof (fetch_each_requests net (net_log w) (asset_request <$> ASSETS_TO_CACHE)) as Hreq.
    destruct (fetch_each net (net_log w) (asset_request <$> ASSETS_TO_CACHE)) as [log' os].
    change (os.*1 = asset_request <$> ASSETS_TO_CACHE) in Hreq.
    destruct (all_fetched os) as [l|] eqn:Hall; simpl.
    + rewrite cache_of_put_each, cache_of_open. apply foldl_insert_absent.
      intros Hin. apply list_elem_of_fmap in Hin as (r & -> & Hr).
      apply all_fetched_Some in Hall. subst os.
      rewrite <-list_fmap_compose in Hreq.
      assert (r ∈ asset_request <$> ASSETS_TO_CACHE) as Hasset
        by (by rewrite <-Hreq).
      pose proof assets_not_api as Hassets. rewrite Forall_forall in Hassets.
      apply Hassets, key_not_api in Hasset. congruence.
    + by rewrite cache_of_open.
  - simpl. by rewrite cache_of_purge.
  - unfold fetch_handler.
    destruct (caches_match (caches w) (request_key request)); [done|].
    destruct (net (net_log w) request) as [response|]; [|done].
    destruct (is_api request) eqn:Hapi; [done|].
    destruct (status response =? 200)%Z; [|done]. simpl.
    rewrite cache_of_put. case_decide; [|done].
    apply lookup_insert_ne. intros Heq. apply key_not_api in Hapi. congruence.
Qed.

Lemma reachable_api_keys net (s0 : CacheStorage) w k :
  key_is_api k = true → reachable net s0 w →
  cache_of CACHE_NAME (caches w) !! k = cache_of CACHE_NAME s0 !! k.
Proof.
  intros Hk Hreach.
  eapply (rtc_ind_r (λ w, cache_of CACHE_NAME (caches w) !! k
                          = cache_of CACHE_NAME s0 !! k)); [| |exact Hreach].
  - done.
  - intros y z _ Hstep IH. by rewrite (step_api_keys net y z k Hstep Hk).
Qed.

(** From an active worker on, only fetch events happen, and they only
    add to the cache. *)
Lemma active_future net w w' :
  phase w = Active → rtc (sw_step net) w w' →
  phase w' = Active ∧
  ∀ k stored, cache_of CACHE_NAME (caches w) !! k = Some stored →
              cache_of CACHE_NAME (caches w') !! k = Some stored.
Proof.
  intros Hph Hsteps.
  eapply (rtc_ind_r (λ w', phase w' = Active ∧
    ∀ k stored, cache_of CACHE_NAME (caches w) !! k = Some stored →
                cache_of CACHE_NAME (caches w') !! k = Some stored));
    [| |exact Hsteps].
  - done.
  - intros y z _ Hstep [IHph IHk].
    destruct Hstep as [y Hph'|y Hph'|y request Hph']; try congruence.
    split; [by rewrite fetch_handler_phase|].
    intros k stored Hk. by apply fetch_handler_keeps, IHk.
Qed.

(** A worker whose install failed is never run again. *)
Lemma redundant_stuck net w w' :
  phase w = Redundant → rtc (sw_step net) w w' → w' = w.
Proof.
  intros Hph Hsteps. apply rtc_inv in Hsteps as [->|(y & Hstep & _)]; [done|].
  destruct Hstep; congruence.
Qed.

End LifeCycle.

(** ** The caching policy *)

Section Policy.
Implicit Types (net : Network) (w : Worker) (request : Request).

Lemma install_unfold net w :
  install net w =
  let opened := caches_open CACHE_NAME (caches w) in
  let log' := net_log w ++ (asset_request <$> ASSETS_TO_CACHE) in
  match all_fetched (install_outcomes net w) with
  | Some l =>
      skipWaiting (set_net_log log' (set_caches (put_each CACHE_NAME l opened) w))
  | None => set_phase Redundant (set_net_log log' (set_caches opened w))
  end.
Proof.
  unfold install, install_outcomes.
  pose proof (fetch_each_log net (net_log w) (asset_request <$> ASSETS_TO_CACHE)) as Hlog.
  destruct (fetch_each net (net_log w) (asset_request <$> ASSETS_TO_CACHE)) as [log' os].
  cbn [fst snd] in *. by rewrite Hlog.
Qed.

(** C1. A request that has a stored response in the current cache
    generation is answered with that stored response and without any
    network request (the worker's state, network log included, is left as
    it was); this holds in the state where the response is stored and in
    every state the worker reaches from there, since no later step purges
    the current generation. *)
Theorem cache_hit_served_without_network
    net (s0 : CacheStorage) w request stored :
  wf_storage s0 →
  reachable net s0 w →
  phase w = Active →
  cache_of CACHE_NAME (caches w) !! request_key request = Some stored →
  ∀ w', rtc (sw_step net) w w' →
    fetch_handler net w' request = (w', Responded stored).
Proof.
  intros Hwf Hreach Hph Hstored w' Hsteps.
  destruct (active_future net w w' Hph Hsteps) as [Hph' Hkeep].
  assert (lifecycle_inv w') as Hinv.
  { apply (reachable_inv net s0); [done|]. unfold reachable. by etrans. }
  apply fetch_handler_hit.
  rewrite (caches_match_single CACHE_NAME) by (by apply Hinv).
  by apply Hkeep.
Qed.

(** C4 (amended). The response to a request whose URL contains [/api/] is
    never written to a cache, whatever its status and whatever the state of
    the worker. When [/api/] comes before the fragment of the URL, the
    caches of the serving worker hold an entry for the request only if the
    cache called [CACHE_NAME] held it before the install; when it did not,
    the request is never served from the cache: the answer is the
    network's, and the worker only records the request as sent. (A URL
    whose only [/api/] is in its fragment is looked up without the
    fragment.) *)
Theorem api_requests_pass_through net (s0 : CacheStorage) w request :
  wf_storage s0 →
  reachable net s0 w →
  phase w = Active →
  (is_api request = true →
     ∀ w0, caches (fetch_handler net w0 request).1 = caches w0) ∧
  (key_is_api (request_key request) = true →
     is_api request = true ∧
     caches_match (caches w) (request_key request)
       = cache_of CACHE_NAME s0 !! request_key request ∧
     (cache_of CACHE_NAME s0 !! request_key request = None →
        fetch_handler net w request
        = (set_net_log (net_log w ++ [request]) w,
           match net (net_log w) request with
           | Some response => Responded response
           | None => Rejected
           end))).
Proof.
  intros Hwf Hreach Hph. split.
  - intros Hapi w0. by apply fetch_handler_api_untouched.
  - intros Hkey.
    assert (is_api request = true) as Hapi
      by (by apply includes_strip_fragment in Hkey).
    pose proof (reachable_inv net s0 w Hwf Hreach) as Hinv.
    assert (caches_match (caches w) (request_key request)
            = cache_of CACHE_NAME s0 !! request_key request) as Hsame.
    { rewrite (caches_match_single CACHE_NAME) by (by apply Hinv).
      by apply (reachable_api_keys net s0 w). }
    split_and!; [done|done|].
    intros Hnone. rewrite Hnone in Hsame.
    unfold fetch_handler. rewrite Hsame, Hapi.
    by destruct (net (net_log w) request).
Qed.


(** C8. Activating the installed worker deletes every cache whose name
    differs from [CACHE_NAME]: the storage it leaves consists of the new
    generation alone, with its contents intact. The clients are claimed
    after the deletions, and in every state in which the worker serves
    requests the new generation is the only one that exists. *)
Theorem activation_leaves_one_generation net (s0 : CacheStorage) w :
  wf_storage s0 →
  reachable net s0 w →
  phase w = Waiting →
  caches (activate w) = [(CACHE_NAME, cache_of CACHE_NAME (caches w))] ∧
  (∀ name, name ∈ caches_keys (caches w) → name ≠ CACHE_NAME →
           name ∉ caches_keys (caches (activate w))) ∧
  activate w = clients_claim (set_caches (purge (caches w)) w) ∧
  ∀ w', rtc (sw_step net) (activate w) w' →
    phase w' = Active ∧ caches_keys (caches w') = [CACHE_NAME].
Proof.
  intros Hwf Hreach Hph.
  pose proof (reachable_inv net s0 w Hwf Hreach) as Hinv.
  assert (caches (activate w) = [(CACHE_NAME, cache_of CACHE_NAME (caches w))])
    as Heq by (apply activate_caches; by apply Hinv).
  split_and!; [done| |done|].
  - intros name _ Hne Hin. rewrite Heq in Hin. unfold caches_keys in Hin.
    apply list_elem_of_singleton in Hin. done.
  - intros w' Hsteps.
    destruct (active_future net (activate w) w' eq_refl Hsteps) as [Hph' _].
    split; [done|].
    assert (lifecycle_inv w') as Hinv'.
    { apply (reachable_inv net s0); [done|]. unfold reachable.
      etrans; [exact Hreach|]. eapply rtc_l; [by apply step_activate|done]. }
    by apply Hinv'.
Qed.

(** C9. The install handler sends one request per asset of
    [ASSETS_TO_CACHE], in order. If the network answers every one of them
    with a response [addAll] accepts, each asset is stored in the new
    generation with the response the network gave for it, [skipWaiting] is
    called and the worker goes on to activation. If the network fails any
    of them, the install fails: no cache gets an entry, [skipWaiting] is
    not called, and the worker is discarded and never serves a request. *)
Theorem install_all_or_nothing net w :
  let requests := asset_request <$> ASSETS_TO_CACHE in
  let answer := λ (i : nat) (r : Request), net (net_log w ++ take i requests) r in
  net_log (install net w) = net_log w ++ requests ∧
  ((∀ i r, requests !! i = Some r → fetch_failed (answer i r) = false) →
     phase (install net w) = Waiting ∧
     skip_waiting (install net w) = true ∧
     ∀ i r, requests !! i = Some r →
       ∃ response,
         answer i r = Some response ∧
         cache_of CACHE_NAME (caches (install net w)) !! request_key r
           = Some response) ∧
  ((∃ i r, requests !! i = Some r ∧ fetch_failed (answer i r) = true) →
     phase (install net w) = Redundant ∧
     skip_waiting (install net w) = skip_waiting w ∧
     (∀ name, cache_of name (caches (install net w)) = cache_of name (caches w)) ∧
     ∀ net' w', rtc (sw_step net') (install net w) w' → phase w' ≠ Active).
Proof.
  intros requests answer.
  assert (∀ i r, requests !! i = Some r →
            install_outcomes net w !! i = Some (r, answer i r)) as Hout
    by (intros i r Hr; by apply fetch_each_lookup).
  split_and!; [apply install_log| |].
  - intros Hall. rewrite install_unfold. cbn zeta.
    destruct (all_fetched (install_outcomes net w)) as [l|] eqn:Hl.
    + split_and!; [done|done|]. intros i r Hr.
      pose proof (all_fetched_Some _ _ Hl) as Hos.
      pose proof (Hout i r Hr) as Hi. rewrite Hos, list_lookup_fmap in Hi.
      destruct (l !! i) as [[r' response]|] eqn:Hli; [|done].
      simpl in Hi. injection Hi as -> Hans.
      exists response. split; [done|]. simpl.
      rewrite cache_of_put_each. apply foldl_insert_lookup.
      * assert (l.*1 = (install_outcomes net w).*1) as ->.
        { rewrite Hos, <-list_fmap_compose. by apply list_fmap_ext. }
        unfold install_outcomes. rewrite fetch_each_requests.
        apply assets_distinct.
      * by apply list_elem_of_lookup_2 in Hli.
    + apply all_fetched_None in Hl as ([r o] & He & Hf).
      apply list_elem_of_lookup in He as [i Hi].
      assert (requests !! i = Some r) as Hr.
      { assert ((install_outcomes net w).*1 = requests) as Hreqs
          by apply fetch_each_requests.
        by rewrite <-Hreqs, list_lookup_fmap, Hi. }
      rewrite (Hout i r Hr) in Hi. simplify_eq/=.
      rewrite (Hall i r Hr) in Hf. done.
  - intros (i & r & Hr & Hf).
    assert (all_fetched (install_outcomes net w) = None) as Hnone.
    { apply all_fetched_None. exists (r, answer i r).
      split; [|done]. eapply list_elem_of_lookup_2. by apply Hout. }
    rewrite install_unfold. cbn zeta. rewrite Hnone.
    split_and!; [done|done|intros name; apply cache_of_open|].
    intros net' w' Hsteps.
    apply redundant_stuck in Hsteps; [|done]. by subst w'.
Qed.

End Policy.

(** ** The statements above on concrete inputs *)

Section PolicyInstances.
Import Scenario.

Lemma old_storage_wf : wf_storage old_storage.
Proof. by apply (bool_decide_unpack _); vm_compute. Defined.

Lemma installed_reachable : reachable net_up old_storage installed.
Proof. eapply rtc_l; [by apply step_install|apply rtc_refl]. Defined.

Lemma active_reachable : reachable net_up old_storage active.
Proof.
  eapply rtc_l; [by apply step_install|].
  eapply rtc_l; [by apply step_activate|apply rtc_refl].
Defined.

(** The stylesheet cached at install is served from the cache, also after
    another resource has been fetched and cached. *)
Lemma cache_hit_served_without_network_witness :
  let later := (fetch_handler net_up active get_logo).1 in
  fetch_handler net_up later get_styles = (later, Responded r200).
Proof.
  intros later.
  apply (cache_hit_served_without_network net_up old_storage active get_styles r200).
  - exact old_storage_wf.
  - exact active_reachable.
  - reflexivity.
  - by vm_compute.
  - eapply rtc_l; [by apply (step_fetch net_up active get_logo)|apply rtc_refl].
Defined.

Lemma active_phase : phase Scenario.active = Active.
Proof. reflexivity. Defined.

Lemma api_requests_pass_through_witness :
  fetch_handler net_up active post_scan
  = (set_net_log (net_log active ++ [post_scan]) active, Responded r200)
  ∧ (∀ w0, caches (fetch_handler net_up w0 post_scan).1 = caches w0)
  ∧ caches_match (caches active) (request_key post_scan) = None.
Proof.
  destruct (api_requests_pass_through net_up old_storage active post_scan
              old_storage_wf active_reachable active_phase)
    as [Hwritten Hserved].
  destruct (Hserved eq_refl) as (_ & Hmatch & Hnet).
  split_and!.
  - apply Hnet. by vm_compute.
  - by apply Hwritten.
  - rewrite Hmatch. by vm_compute.
Defined.

(** C4, as stated, fails: the page address below contains [/api/], in its
    fragment, and is answered from the cache, where [/index.html] is,
    without any request to the network. *)
Lemma fragment_api_served_from_cache_counterexample :
  is_api MoreScenario.get_docs = true ∧
  fetch_handler net_up active MoreScenario.get_docs = (active, Responded r200).
Proof. split; by vm_compute. Qed.



Lemma activation_leaves_one_generation_witness :
  caches (activate installed)
    = [(CACHE_NAME, cache_of CACHE_NAME (caches installed))] ∧
  (∀ name, name ∈ caches_keys (caches installed) → name ≠ CACHE_NAME →
           name ∉ caches_keys (caches (activate installed))) ∧
  activate installed
    = clients_claim (set_caches (purge (caches installed)) installed) ∧
  ∀ w', rtc (sw_step net_up) (activate installed) w' →
    phase w' = Active ∧ caches_keys (caches w') = [CACHE_NAME].
Proof.
  apply (activation_leaves_one_generation net_up old_storage installed).
  - exact old_storage_wf.
  - exact installed_reachable.
  - reflexivity.
Defined.

(** With the network up the install stores the stylesheet as answered;
  with the jQuery CDN unreachable, or with partial contents for answers,
  it fails and the new generation holds nothing. *)
Lemma install_all_or_nothing_witness :
  (phase (install net_up (init_worker old_storage)) = Waiting ∧
   cache_of CACHE_NAME (caches (install net_up (init_worker old_storage)))
     !! ("GET", "/styles.css") = Some r200) ∧
  (phase (install net_cdn_down (init_worker old_storage)) = Redundant ∧
   cache_of CACHE_NAME (caches (install net_cdn_down (init_worker old_storage))) = ∅) ∧
  phase (install MoreScenario.net_partial (init_worker old_storage)) = Redundant.
Proof.
  split; [|split].
  - destruct (install_all_or_nothing net_up (init_worker old_storage))
      as (_ & Hgoes & _).
    destruct Hgoes as (Hphase & _ & Hstored); [by intros i r _|].
    split; [done|].
    destruct (Hstored 2 (asset_request "/styles.css") eq_refl)
      as (response & Hanswer & Hcache).
    injection Hanswer as <-. exact Hcache.
  - destruct (install_all_or_nothing net_cdn_down (init_worker old_storage))
      as (_ & _ & Hfails).
    destruct Hfails as (Hphase & _ & Hcache & _).
    + exists 4, (asset_request "https://code.jquery.com/jquery-3.7.1.min.js").
      by split.
    + split; [done|]. rewrite Hcache. by vm_compute.
  - destruct (install_all_or_nothing MoreScenario.net_partial (init_worker old_storage))
      as (_ & _ & Hfails).
    destruct Hfails as (Hphase & _); [|done].
    exists 0, (asset_request "/"). by split.
Defined.

End PolicyInstances.

End CacheProofs.

(** * Properties of the pending-scan queue *)

Module QueueProofs.
Import ScanQueue.

(** ** One turn of the drain loop *)

Section Turn.
Implicit Types (env : Env) (st : SyncState) (scan r : JsObject).

Lemma NoDup_ids_inj (l : list JsObject) x y :
  NoDup (ids l) → x ∈ l → y ∈ l → get x "id" = get y "id" → x = y.
Proof.
  unfold ids. intros Hnd Hx Hy Heq.
  apply list_elem_of_lookup in Hx as [i Hi].
  apply list_elem_of_lookup in Hy as [j Hj].
  assert (i = j) as ->; [|congruence].
  eapply (NoDup_lookup _ _ _ _ Hnd).
  - by rewrite list_lookup_fmap, Hi.
  - by rewrite list_lookup_fmap, Hj, Heq.
Qed.

Lemma ids_elem (l : list JsObject) r : r ∈ l → get r "id" ∈ ids l.
Proof. intros Hr. unfold ids. by apply (list_elem_of_fmap_2 (λ r, get r "id")). Qed.

(** The four ways a turn can go. *)
Lemma sync_one_cases env st scan :
  (net_fetch env (trace st) (resubmission scan) = None ∧
   sync_one env st scan =
     {| db := db st;
        trace := trace st ++ [EvFetch (resubmission scan) None; EvConsoleError] |})
  ∨ (∃ response,
      net_fetch env (trace st) (resubmission scan) = Some response ∧
      ok response = false ∧
      sync_one env st scan =
        {| db := db st;
           trace := trace st ++ [EvFetch (resubmission scan) (Some response)] |})
  ∨ (∃ response,
      net_fetch env (trace st) (resubmission scan) = Some response ∧
      ok response = true ∧
      removal_succeeds env st scan = true ∧
      sync_one env st scan =
        {| db := db_delete (get scan "id") (db st);
           trace := trace st ++ [EvFetch (resubmission scan) (Some response);
                                 EvDelete (get scan "id") true] |})
  ∨ (∃ response,
      net_fetch env (trace st) (resubmission scan) = Some response ∧
      ok response = true ∧
      removal_succeeds env st scan = false ∧
      sync_one env st scan =
        {| db := db st;
           trace := trace st ++ [EvFetch (resubmission scan) (Some response);
                                 EvDelete (get scan "id") false;
                                 EvConsoleError] |}).
Proof.
  unfold sync_one, removal_succeeds.
  destruct (net_fetch env (trace st) (resubmission scan)) as [response|];
    [|by left].
  right. destruct (ok response) eqn:Hok; [|left; by exists response].
  right. rewrite <-!app_assoc. simpl.
  destruct (delete_ok env _ _) eqn:Hdel.
  - left. by exists response.
  - right. by exists response.
Qed.

(** What a turn does to the store. *)
Lemma sync_one_db env st scan :
  db (sync_one env st scan) =
    if acknowledged env st scan && removal_succeeds env st scan
    then db_delete (get scan "id") (db st) else db st.
Proof.
  unfold acknowledged.
  destruct (sync_one_cases env st scan)
    as [[Hn ->]|[(r & Hn & Hok & ->)|[(r & Hn & Hok & Hdel & ->)|(r & Hn & Hok & Hdel & ->)]]];
    rewrite Hn; simpl; rewrite ?Hok, ?Hdel; done.
Qed.

Lemma sync_one_key_generator env st scan :
  key_generator (db (sync_one env st scan)) = key_generator (db st).
Proof. rewrite sync_one_db. by case_match. Qed.

Lemma sync_one_sublist env st scan :
  pending (db (sync_one env st scan)) `sublist_of` pending (db st).
Proof.
  rewrite sync_one_db. case_match; [|done]. simpl. apply sublist_filter.
Qed.

(** A turn removes at most the record it visits. *)
Lemma sync_one_keeps env st scan r :
  r ∈ pending (db st) → get r "id" ≠ get scan "id" →
  r ∈ pending (db (sync_one env st scan)).
Proof.
  intros Hin Hne. rewrite sync_one_db. case_match; [|done].
  simpl. by apply list_elem_of_filter.
Qed.

Lemma sync_one_removed env st scan :
  acknowledged env st scan = true → removal_succeeds env st scan = true →
  scan ∉ pending (db (sync_one env st scan)).
Proof.
  intros Hack Hdel. rewrite sync_one_db, Hack, Hdel. simpl.
  intros Hin. by apply list_elem_of_filter in Hin as [Hne _].
Qed.

Lemma sync_one_retained env st scan :
  acknowledged env st scan = false → db (sync_one env st scan) = db st.
Proof. intros Hack. by rewrite sync_one_db, Hack. Qed.

Lemma fetches_app t1 t2 : fetches (t1 ++ t2) = fetches t1 ++ fetches t2.
Proof.
  induction t1 as [|[call o|id b|] t1 IH]; simpl; [done| |done|done].
  by rewrite IH.
Qed.

(** A turn extends the trace, by exactly one network call. *)
Lemma sync_one_trace env st scan :
  ∃ events, trace (sync_one env st scan) = trace st ++ events ∧
            fetches events = [resubmission scan].
Proof.
  destruct (sync_one_cases env st scan)
    as [[Hn ->]|[(r & Hn & Hok & ->)|[(r & Hn & Hok & Hdel & ->)|(r & Hn & Hok & Hdel & ->)]]];
    eexists; (split; [reflexivity|done]).
Qed.

End Turn.

(** ** A whole drain *)

Section Drain.
Implicit Types (env : Env) (st : SyncState) (scan r : JsObject).
Implicit Types (visited todo : list JsObject).

Lemma drain_trace env st visited :
  ∃ events, trace (foldl (sync_one env) st visited) = trace st ++ events ∧
            fetches events = resubmission <$> visited.
Proof.
  revert st. induction visited as [|scan visited IH]; intros st; simpl.
  - exists []. by rewrite app_nil_r.
  - destruct (sync_one_trace env st scan) as (ev1 & Ht1 & Hf1).
    destruct (IH (sync_one env st scan)) as (ev2 & Ht2 & Hf2).
    exists (ev1 ++ ev2). rewrite Ht2, Ht1, <-app_assoc. split; [done|].
    by rewrite fetches_app, Hf1, Hf2.
Qed.

Lemma drain_sublist env st visited :
  pending (db (foldl (sync_one env) st visited)) `sublist_of` pending (db st).
Proof.
  revert st. induction visited as [|scan visited IH]; intros st; simpl; [done|].
  etrans; [apply IH|apply sync_one_sublist].
Qed.

Lemma drain_key_generator env st visited :
  key_generator (db (foldl (sync_one env) st visited)) = key_generator (db st).
Proof.
  revert st. induction visited as [|scan visited IH]; intros st; simpl; [done|].
  by rewrite IH, sync_one_key_generator.
Qed.

(** Turns for other records leave a record where it is. *)
Lemma drain_keeps env st visited r :
  r ∈ pending (db st) → get r "id" ∉ ids visited →
  r ∈ pending (db (foldl (sync_one env) st visited)).
Proof.
  revert st. induction visited as [|scan visited IH]; intros st Hin Hid; [done|].
  unfold ids in *. csimpl in *. apply not_elem_of_cons in Hid as [Hne Hid].
  apply IH; [|done]. by apply sync_one_keeps.
Qed.

(** The configurations of a drain: a prefix of the snapshot has been
    visited, the rest is still to do. *)
Lemma drain_reachable env st0 todo st :
  rtc (drain_step env) (drain_start st0) (todo, st) ↔
  ∃ visited, db_getAll (db st0) = visited ++ todo ∧
             st = foldl (sync_one env) st0 visited.
Proof.
  split.
  - intros Hsteps.
    eapply (rtc_ind_r (λ c, ∃ visited, db_getAll (db st0) = visited ++ c.1 ∧
                              c.2 = foldl (sync_one env) st0 visited)
                      (drain_start st0)) in Hsteps; [done| |].
    + by exists [].
    + intros c1 c2 _ Hstep (visited & Hsnap & Hst).
      destruct Hstep as [scan rest st1]. simpl in *.
      exists (visited ++ [scan]). rewrite <-app_assoc. split; [done|].
      by rewrite foldl_app, <-Hst.
  - intros (visited & Hsnap & ->). unfold drain_start. rewrite Hsnap. clear Hsnap.
    revert st0. induction visited as [|scan visited IH]; intros st0; [done|].
    simpl. eapply rtc_l; [apply drain_visit|]. apply IH.
Qed.

(** A drain runs to its end, which is [syncScans]. *)
Lemma drain_completes env st :
  rtc (drain_step env) (drain_start st) ([], syncScans env st).
Proof.
  apply drain_reachable. exists (db_getAll (db st)).
  by rewrite app_nil_r.
Qed.

End Drain.

(** ** The invariant of the drain *)

Section DrainInvariant.
Implicit Types (env : Env) (st : SyncState) (scan r : JsObject).
Implicit Types (visited todo : list JsObject) (events : list Event).

Lemma removal_after_ack_app events extra j scan done :
  removal_after_ack events j scan done →
  removal_after_ack (events ++ extra) j scan done.
Proof.
  intros (response & Hf & Hok & Hd). exists response.
  split_and!; [|done|]; by apply lookup_app_l_Some.
Qed.

Lemma removal_after_ack_last events scan response done extra :
  ok response = true →
  removal_after_ack
    (events ++ EvFetch (resubmission scan) (Some response)
            :: EvDelete (get scan "id") done :: extra)
    (length events) scan done.
Proof.
  intros Hok. exists response. split_and!; [|done|].
  - by apply list_lookup_middle.
  - rewrite (cons_middle (EvFetch _ _)), app_assoc.
    apply list_lookup_middle. rewrite length_app. simpl. lia.
Qed.

Local Ltac in_block H :=
  let Hle := fresh "Hle" in
  let k := fresh "k" in
  let Hk := fresh "Hk" in
  apply lookup_app_Some in H as [H|[Hle H]];
  [|match type of H with
    | _ !! ?n = _ =>
        destruct n as [|[|[|k]]] eqn:Hk; simplify_eq/=
    end].

Lemma drain_inv_holds env st0 visited todo :
  wf_db (db st0) →
  pending (db st0) = visited ++ todo →
  ∃ events, drain_inv st0 visited (foldl (sync_one env) st0 visited) events.
Proof.
  intros Hwf. revert todo.
  induction visited as [|x visited IH] using rev_ind; intros todo Hsnap.
  { exists []. split; simpl.
    - by rewrite app_nil_r.
    - intros i id done Hi. by rewrite lookup_nil in Hi.
    - intros r Hr. by left.
    - intros r i _ Hi. by rewrite lookup_nil in Hi. }
  rewrite <-app_assoc in Hsnap. simpl in Hsnap.
  destruct (IH (x :: todo) Hsnap) as (events & [Htr Hdel Hgone Hfail]).
  rewrite foldl_app. simpl.
  set (st := foldl (sync_one env) st0 visited) in *.
  assert (x ∈ pending (db st0)) as Hx by (rewrite Hsnap; set_solver).
  assert (get x "id" ∉ ids visited) as Hfresh.
  { unfold wf_db, ids in *. rewrite Hsnap, fmap_app in Hwf.
    apply NoDup_app in Hwf as (_ & Hdisj & _).
    intros Hin. apply (Hdisj _ Hin). csimpl. left. }
  assert (∀ r, r ∈ visited → r ∈ pending (db st0)) as Hvis
    by (intros r Hr; rewrite Hsnap; set_solver).
  assert (∀ r, r ∈ pending (db st0) → r ∈ visited → get r "id" ≠ get x "id")
    as Hother.
  { intros r _ Hr Heq. apply Hfresh. rewrite <-Heq. by apply ids_elem. }
  assert (∀ extra i id done,
            events !! i = Some (EvDelete id done) →
            ∃ j scan, i = S j ∧ scan ∈ visited ++ [x] ∧ get scan "id" = id ∧
                      removal_after_ack (events ++ extra) j scan done) as Hdel'.
  { intros extra i id done Hi.
    destruct (Hdel i id done Hi) as (j & scan & -> & Hscan & Hid & Hack).
    exists j, scan. split_and!; [done|set_solver|done|].
    by apply removal_after_ack_app. }
  assert (∀ extra r,
            r ∈ pending (db st0) → r ∈ pending (db st) →
            r ∈ pending (db st) ∨
            (r ∈ visited ++ [x] ∧ ∃ j, removal_after_ack (events ++ extra) j r true))
    as Hstay by (intros; by left).
  assert (∀ extra r,
            (r ∈ visited ∧ ∃ j, removal_after_ack events j r true) →
            r ∈ visited ++ [x] ∧ ∃ j, removal_after_ack (events ++ extra) j r true)
    as Hlift.
  { intros extra r [Hr [j Hj]]. split; [set_solver|].
    exists j. by apply removal_after_ack_app. }
  destruct (sync_one_cases env st x)
    as [[Hn ->]|[(resp & Hn & Hok & ->)
       |[(resp & Hn & Hok & Hrm & ->)|(resp & Hn & Hok & Hrm & ->)]]]; simpl.
  - (* the fetch threw *)
    eexists. split; simpl.
    + by rewrite Htr, <-app_assoc.
    + intros i id done Hi. in_block Hi. by apply Hdel'.
    + intros r Hr. destruct (Hgone r Hr) as [?|Hg]; [by left|right; by apply Hlift].
    + intros r i Hr Hi. in_block Hi. by eapply Hfail.
  - (* answered, not ok *)
    eexists. split; simpl.
    + by rewrite Htr, <-app_assoc.
    + intros i id done Hi. in_block Hi. by apply Hdel'.
    + intros r Hr. destruct (Hgone r Hr) as [?|Hg]; [by left|right; by apply Hlift].
    + intros r i Hr Hi. in_block Hi. by eapply Hfail.
  - (* answered ok, removed *)
    eexists. split; simpl.
    + by rewrite Htr, <-app_assoc.
    + intros i id done Hi. in_block Hi; [by apply Hdel'|].
      exists (length events), x. split_and!; [lia|set_solver|done|].
      by apply removal_after_ack_last.
    + intros r Hr. destruct (Hgone r Hr) as [Hin|Hg]; [|right; by apply Hlift].
      destruct (decide (get r "id" = get x "id")) as [Heq|Hne].
      * right. assert (r = x) as -> by by eapply NoDup_ids_inj.
        split; [set_solver|]. exists (length events).
        by apply removal_after_ack_last.
      * left. by apply list_elem_of_filter.
    + intros r i Hr Hi. in_block Hi.
      apply list_elem_of_filter. split; [|by eapply Hfail].
      destruct (Hdel i _ _ Hi) as (j & scan & _ & Hscan & Hid & _).
      assert (scan = r) as -> by (eapply NoDup_ids_inj; eauto).
      by apply Hother.
  - (* answered ok, the removal threw *)
    eexists. split; simpl.
    + by rewrite Htr, <-app_assoc.
    + intros i id done Hi. in_block Hi; [by apply Hdel'|].
      exists (length events), x. split_and!; [lia|set_solver|done|].
      by apply removal_after_ack_last.
    + intros r Hr. destruct (Hgone r Hr) as [?|Hg]; [by left|right; by apply Hlift].
    + intros r i Hr Hi. in_block Hi; [by eapply Hfail|].
      assert (r = x) as -> by by eapply NoDup_ids_inj.
      destruct (Hgone x Hx) as [?|[Hin _]]; [done|].
      destruct Hfresh. by apply ids_elem.
Qed.

End DrainInvariant.

(** ** The drain: order, removal and retention *)

Section DrainClaims.
Implicit Types (env : Env) (st : SyncState) (scan r : JsObject).

(** C2. A drain sends one resubmission per pending record, in the order of
    the store, whatever the outcomes are. When the turn of a record comes:
    if its resubmission is answered ok and the removal goes through, the
    record is gone from the store after the drain; if the resubmission
    fails (the fetch throws, or the answer is not ok) the record is still
    in the store after the drain; in both cases the drain goes on with the
    records after it. In particular, for a store [e1; e2; e3] where e1
    fails and e2, e3 succeed, the store is [e1] after the drain and the
    three resubmissions were sent in that order. *)
Theorem drain_in_enqueue_order env st :
  wf_db (db st) →
  (∃ events,
     trace (syncScans env st) = trace st ++ events ∧
     fetches events = resubmission <$> pending (db st)) ∧
  (∀ before scan after,
     pending (db st) = before ++ scan :: after →
     let turn := foldl (sync_one env) st before in
     syncScans env st = foldl (sync_one env) (sync_one env turn scan) after ∧
     (acknowledged env turn scan = true →
      removal_succeeds env turn scan = true →
      scan ∉ pending (db (syncScans env st))) ∧
     (acknowledged env turn scan = false →
      scan ∈ pending (db (syncScans env st)))) ∧
  (∀ e1 e2 e3,
     pending (db st) = [e1; e2; e3] →
     let st1 := sync_one env st e1 in
     let st2 := sync_one env st1 e2 in
     acknowledged env st e1 = false →
     acknowledged env st1 e2 = true → removal_succeeds env st1 e2 = true →
     acknowledged env st2 e3 = true → removal_succeeds env st2 e3 = true →
     pending (db (syncScans env st)) = [e1] ∧
     ∃ events,
       trace (syncScans env st) = trace st ++ events ∧
       fetches events = [resubmission e1; resubmission e2; resubmission e3]).
Proof.
  intros Hwf. split_and!.
  - apply drain_trace.
  - intros before scan after Hsnap turn.
    assert (syncScans env st = foldl (sync_one env) (sync_one env turn scan) after)
      as Hsplit.
    { unfold syncScans, db_getAll. by rewrite Hsnap, foldl_app. }
    unfold wf_db in Hwf. rewrite Hsnap in Hwf. unfold ids in Hwf.
    rewrite fmap_app in Hwf. csimpl in Hwf.
    apply NoDup_app in Hwf as (_ & Hbefore & Hafter).
    apply NoDup_cons in Hafter as [Hafter _].
    assert (scan ∈ pending (db turn)) as Hturn.
    { apply drain_keeps; [rewrite Hsnap; set_solver|].
      intros Hin. apply (Hbefore _ Hin). left. }
    split_and!; [done| |].
    + intros Hack Hrm Hin. rewrite Hsplit in Hin.
      apply (sublist_subseteq _ _ (drain_sublist env _ after)) in Hin.
      by apply (sync_one_removed env turn scan).
    + intros Hack. rewrite Hsplit. apply drain_keeps; [|done].
      by rewrite sync_one_retained.
  - intros e1 e2 e3 Hsnap st1 st2 Hf1 Ha2 Hr2 Ha3 Hr3.
    split.
    + unfold wf_db in Hwf. rewrite Hsnap in Hwf. unfold ids in Hwf. csimpl in Hwf.
      apply NoDup_cons in Hwf as [Hn1 Hwf]. apply NoDup_cons in Hwf as [Hn2 _].
      apply not_elem_of_cons in Hn1 as [Hn12 Hn1].
      apply not_elem_of_cons in Hn1 as [Hn13 _].
      apply not_elem_of_cons in Hn2 as [Hn23 _].
      unfold syncScans, db_getAll. rewrite Hsnap. simpl. fold st1. fold st2.
      rewrite sync_one_db, Ha3, Hr3. simpl.
      unfold st2. rewrite sync_one_db, Ha2, Hr2. simpl.
      unfold st1. rewrite sync_one_db, Hf1. simpl. rewrite Hsnap.
      rewrite (filter_cons _ e1), (filter_cons _ e2), (filter_cons _ e3), filter_nil.
      rewrite (decide_True (P := get e1 "id" ≠ get e2 "id")) by done.
      rewrite (decide_False (P := get e2 "id" ≠ get e2 "id")) by auto.
      rewrite (decide_True (P := get e3 "id" ≠ get e2 "id")) by done.
      rewrite (filter_cons _ e1), (filter_cons _ e3), filter_nil.
      rewrite (decide_True (P := get e1 "id" ≠ get e3 "id")) by done.
      by rewrite (decide_False (P := get e3 "id" ≠ get e3 "id")) by auto.
    + destruct (drain_trace env st (pending (db st))) as (events & Htr & Hfs).
      exists events. split; [done|]. by rewrite Hfs, Hsnap.
Qed.

(** C3. At every point of a drain: a removal from the store is requested
    only immediately after the network answered ok to the resubmission of
    that very record; a record that has left the store had such an answer,
    followed by a removal that went through; and a record whose removal
    threw is still in the store, so that the next drain resubmits it. *)
Theorem removal_only_after_acknowledgement env st0 todo st :
  wf_db (db st0) →
  rtc (drain_step env) (drain_start st0) (todo, st) →
  ∃ events,
    trace st = trace st0 ++ events ∧
    (∀ i id done,
       events !! i = Some (EvDelete id done) →
       ∃ j scan, i = S j ∧ scan ∈ pending (db st0) ∧ get scan "id" = id ∧
                 removal_after_ack events j scan done) ∧
    (∀ scan,
       scan ∈ pending (db st0) → scan ∉ pending (db st) →
       ∃ j, removal_after_ack events j scan true) ∧
    (∀ scan i,
       scan ∈ pending (db st0) →
       events !! i = Some (EvDelete (get scan "id") false) →
       scan ∈ pending (db st) ∧
       ∀ env', ∃ events',
         trace (syncScans env' st) = trace st ++ events' ∧
         resubmission scan ∈ fetches events').
Proof.
  intros Hwf Hsteps.
  apply drain_reachable in Hsteps as (visited & Hsnap & ->).
  destruct (drain_inv_holds env st0 visited todo Hwf Hsnap)
    as (events & [Htr Hdel Hgone Hfail]).
  exists events. split_and!; [done| | |].
  - intros i id done Hi.
    destruct (Hdel i id done Hi) as (j & scan & -> & Hscan & Hid & Hack).
    exists j, scan. split_and!; [done| |done|done].
    unfold db_getAll in Hsnap. rewrite Hsnap. set_solver.
  - intros scan Hscan Hgone'.
    by destruct (Hgone scan Hscan) as [?|[_ ?]].
  - intros scan i Hscan Hi.
    assert (scan ∈ pending (db (foldl (sync_one env) st0 visited))) as Hin
      by by eapply Hfail.
    split; [done|]. intros env'.
    destruct (drain_trace env' (foldl (sync_one env) st0 visited)
                (pending (db (foldl (sync_one env) st0 visited))))
      as (events' & Htr' & Hfs).
    exists events'. split; [done|]. rewrite Hfs.
    by apply list_elem_of_fmap_2.
Qed.

(** C6 (amended). The request a drain sends for a pending record takes its
    url, headers and body from that record, and its method is always POST:
    a [method] property of the record, if there is one, is not read. *)
Theorem resubmission_from_entry env st :
  (∃ events,
     trace (syncScans env st) = trace st ++ events ∧
     fetches events = resubmission <$> pending (db st)) ∧
  ∀ scan,
    call_url (resubmission scan) = get scan "url" ∧
    call_headers (resubmission scan) = get scan "headers" ∧
    call_body (resubmission scan) = get scan "body" ∧
    call_method (resubmission scan) = "POST" ∧
    ∀ m, resubmission (<["method" := m]> scan) = resubmission scan.
Proof.
  split; [apply drain_trace|].
  intros scan. split_and!; try done.
  intros m. unfold resubmission, get.
  by rewrite !lookup_insert_ne by done.
Qed.

End DrainClaims.

(** ** The widget's enqueue and the records of the store *)

Section Enqueue.
Implicit Types (d : Database) (r scanData : JsObject) (p : Platform).

Lemma get_lookup r k v : r !! k = Some v → get r k = v.
Proof. unfold get. by intros ->. Qed.

Lemma stored_record_fields scanData now k f :
  f ≠ "id" →
  get (<["id" := JNumber k]> (pending_record scanData now)) f
  = get (pending_record scanData now) f.
Proof. intros Hf. unfold get. by rewrite lookup_insert_ne. Qed.

(** C10 (amended). [saveForOffline] enqueues only while offline. When
    [navigator.onLine] is true it returns false and changes nothing. When
    it is false it returns true and appends exactly one record, which
    carries the url, headers and body of the scan data, the current time
    and the next id of the store; the sync tag is registered only if the
    component holds a sync registration. *)
Theorem saveForOffline_enqueues_when_offline
    onLine now (this : Component) scanData p :
  let outcome := saveForOffline onLine now this scanData p in
  if onLine then outcome = (p, false)
  else
    outcome.2 = true ∧
    (∃ record,
       pending (store outcome.1) = pending (store p) ++ [record] ∧
       get record "id" = JNumber (key_generator (store p)) ∧
       get record "url" = get scanData "url" ∧
       get record "headers" = get scanData "headers" ∧
       get record "body" = get scanData "body" ∧
       get record "timestamp" = JNumber now) ∧
    sync_registered outcome.1 =
      if syncRegistration this then sync_registered p ++ ["sync-scans"]
      else sync_registered p.
Proof.
  intros outcome. unfold outcome, saveForOffline. destruct onLine; simpl; [done|].
  split_and!; [done| |done].
  eexists. split; [done|].
  split_and!; [by apply get_lookup, lookup_insert_eq|..];
    rewrite stored_record_fields by done; unfold pending_record, get;
    by simplify_map_eq.
Qed.

Lemma stored_shape_mono d d' r :
  (key_generator d ≤ key_generator d')%Z → stored_shape d r → stored_shape d' r.
Proof.
  intros Hle (Hdom & (k & Hk & Hlt) & Hrest).
  split; [done|]. split; [|done]. exists k. split; [done|lia].
Qed.

Lemma new_record_shape d scanData now :
  (1 ≤ key_generator d)%Z → typed_scan scanData →
  stored_shape (db_add (pending_record scanData now) d)
    (<["id" := JNumber (key_generator d)]> (pending_record scanData now)).
Proof.
  intros Hkg [[u Hu] [h Hh]]. unfold stored_shape, pending_record.
  rewrite Hu, Hh. split_and!.
  - rewrite !dom_insert_L, dom_empty_L. set_solver.
  - exists (key_generator d). split; [by simplify_map_eq|]. simpl. lia.
  - exists u. by simplify_map_eq.
  - exists h. by simplify_map_eq.
  - eexists. by simplify_map_eq.
  - exists now. by simplify_map_eq.
Qed.

Lemma stored_shape_no_method d r : stored_shape d r → r !! "method" = None.
Proof.
  intros (Hdom & _). apply not_elem_of_dom. rewrite Hdom. set_solver.
Qed.

Lemma queue_inv_empty : queue_inv empty_db.
Proof. split; [done|apply NoDup_nil_2|apply Forall_nil_2]. Qed.

Lemma queue_inv_add d scanData now :
  typed_scan scanData → queue_inv d →
  queue_inv (db_add (pending_record scanData now) d).
Proof.
  intros Htyped [Hkg Hwf Hshape]. split; simpl.
  - lia.
  - unfold wf_db, ids in *. simpl. rewrite fmap_app. apply NoDup_app.
    split_and!; [done| |apply NoDup_singleton].
    intros x Hx Hx'. csimpl in Hx'. apply list_elem_of_singleton in Hx'.
    apply list_elem_of_fmap in Hx as (r & -> & Hr).
    rewrite Forall_forall in Hshape.
    destruct (Hshape r Hr) as (_ & (k & Hk & Hlt) & _).
    rewrite (get_lookup _ _ _ Hk) in Hx'.
    rewrite (get_lookup _ "id" (JNumber (key_generator d))) in Hx'
      by apply lookup_insert_eq.
    simplify_eq. lia.
  - apply Forall_app. split.
    + eapply Forall_impl; [exact Hshape|]. intros r.
      apply stored_shape_mono. simpl. lia.
    + apply Forall_singleton. by apply new_record_shape.
Qed.

Lemma queue_inv_step d d' : queue_step d d' → queue_inv d → queue_inv d'.
Proof.
  intros Hstep Hinv. destruct Hstep as [onLine now this scanData p Htyped|env st].
  - unfold saveForOffline. destruct onLine; simpl; [done|].
    by apply queue_inv_add.
  - destruct Hinv as [Hkg Hwf Hshape].
    pose proof (drain_sublist env st (db_getAll (db st))) as Hsub.
    fold (syncScans env st) in Hsub.
    pose proof (drain_key_generator env st (db_getAll (db st))) as Hsame.
    fold (syncScans env st) in Hsame.
    split.
    + by rewrite Hsame.
    + unfold wf_db, ids in *.
      apply (sublist_NoDup _ ((λ r, get r "id") <$> pending (db st)));
        [done|by apply fmap_sublist].
    + rewrite Forall_forall in *. intros r Hr.
      apply (stored_shape_mono (db st)); [by rewrite Hsame|].
      apply Hshape. by apply (sublist_subseteq _ _ Hsub).
Qed.

(** C7 (amended). Every record of the store has the layout
    {id, url, headers, body, timestamp}: a numeric id that no other record
    of the store has, the string url and the headers mapping of the scan
    data it was built from, a body, and an integer timestamp. It has no
    [method] property. *)
Theorem stored_records_shape d :
  rtc queue_step empty_db d →
  NoDup (ids (pending d)) ∧
  ∀ r, r ∈ pending d → stored_shape d r ∧ r !! "method" = None.
Proof.
  intros Hreach.
  assert (queue_inv d) as [Hkg Hwf Hshape].
  { eapply (rtc_ind_r (λ d, queue_inv d)); [| |exact Hreach].
    - apply queue_inv_empty.
    - intros y z _ Hstep IH. by eapply queue_inv_step. }
  split; [done|]. intros r Hr. rewrite Forall_forall in Hshape.
  split; [by apply Hshape|]. eapply stored_shape_no_method. by apply Hshape.
Qed.

End Enqueue.

(** ** The statements above on concrete inputs *)

Section QueueInstances.
Import Scenario.

Lemma queued_snapshot : pending (db queued) = [e1; e2; e3].
Proof. by vm_compute. Defined.

Lemma queued_wf : wf_db (db queued).
Proof. by apply (bool_decide_unpack _); vm_compute. Defined.

(** Three scans are queued; the server rejects the first one: after the
    drain the store holds the first scan only, and the three were sent in
    the order of the queue. *)
Lemma drain_in_enqueue_order_witness :
  pending (db (syncScans env_first_fails queued)) = [e1] ∧
  ∃ events,
    trace (syncScans env_first_fails queued) = trace queued ++ events ∧
    fetches events = [resubmission e1; resubmission e2; resubmission e3].
Proof.
  destruct (drain_in_enqueue_order env_first_fails queued queued_wf)
    as (_ & _ & Hthree).
  apply (Hthree e1 e2 e3 queued_snapshot); by vm_compute.
Defined.

(** The removal of the second record throws: the record stays in the
    store, and the next drain resubmits it. *)
Lemma removal_only_after_acknowledgement_witness :
  e2 ∈ pending (db (syncScans env_removal_fails queued)) ∧
  ∀ env', ∃ events',
    trace (syncScans env' (syncScans env_removal_fails queued))
      = trace (syncScans env_removal_fails queued) ++ events' ∧
    resubmission e2 ∈ fetches events'.
Proof.
  destruct (removal_only_after_acknowledgement env_removal_fails queued []
              (syncScans env_removal_fails queued) queued_wf
              (drain_completes env_removal_fails queued))
    as (events & Htr & _ & _ & Hfailed).
  apply (Hfailed e2 3).
  - rewrite queued_snapshot. set_solver.
  - change (trace queued) with (@nil Event) in Htr. rewrite app_nil_l in Htr.
    rewrite <-Htr. by vm_compute.
Defined.

(** C6, as stated, fails: the record [saveForOffline] stores has no
    method, and a record that holds the method PUT is resubmitted with
    POST all the same. *)
Lemma resubmission_ignores_stored_method_counterexample :
  pending (store platform1) = [e1] ∧
  get e1 "method" = JUndefined ∧
  call_method (resubmission e1) = "POST" ∧
  get (<["method" := JString "PUT"]> e1) "method" = JString "PUT" ∧
  call_method (resubmission (<["method" := JString "PUT"]> e1)) = "POST".
Proof. split_and!; by vm_compute. Qed.

(** C7, as stated, fails: the record [saveForOffline] stores has no
    [method] property. *)
Lemma stored_record_without_method_counterexample :
  pending (store platform1) = [e1] ∧
  e1 !! "method" = None ∧
  dom e1 = {[ "id"; "url"; "headers"; "body"; "timestamp" ]}.
Proof.
  split_and!; [by vm_compute|by vm_compute|].
  unfold e1, entry, pending_record.
  rewrite !dom_insert_L, dom_empty_L. set_solver.
Qed.

Lemma platform3_reachable : rtc queue_step empty_db (store platform3).
Proof.
  assert (∀ card, typed_scan (scan_data card)) as Htyped
    by (intros card; split; eexists; by vm_compute).
  eapply rtc_l;
    [exact (queue_save false 1700000000000 widget (scan_data "card-1")
              platform0 (Htyped _))|].
  eapply rtc_l;
    [exact (queue_save false 1700000000500 widget (scan_data "card-2")
              platform1 (Htyped _))|].
  eapply rtc_l;
    [exact (queue_save false 1700000000900 widget (scan_data "card-3")
              platform2 (Htyped _))|].
  apply rtc_refl.
Defined.

Lemma stored_records_shape_witness :
  NoDup (ids (pending (db (syncScans env_first_fails queued)))) ∧
  ∀ r, r ∈ pending (db (syncScans env_first_fails queued)) →
       stored_shape (db (syncScans env_first_fails queued)) r ∧
       r !! "method" = None.
Proof.
  apply (stored_records_shape (db (syncScans env_first_fails queued))).
  eapply rtc_r; [exact platform3_reachable|].
  exact (queue_sync env_first_fails queued).
Defined.

(** C10, as stated, fails: offline and without a sync registration, the
    scan is queued and the result is true, but no sync is registered. *)
Lemma saveForOffline_without_registration_counterexample :
  let outcome :=
    saveForOffline false 1700000000000 widget_without_sync
      (scan_data "card-1") platform0 in
  outcome.2 = true ∧
  pending (store outcome.1) = [e1] ∧
  sync_registered outcome.1 = [].
Proof. split_and!; by vm_compute. Qed.

End QueueInstances.

End QueueProofs.

(** * Further properties of the service worker *)

Module CacheExtras.
Import ServiceWorker CacheNotions CacheProofs.

Section Lookup.
Implicit Types (s : CacheStorage) (k : RequestKey) (name : string).





Lemma purge_idempotent s : purge (purge s) = purge s.
Proof.
  rewrite !purge_filter, list_filter_filter.
  apply list_filter_iff. naive_solver.
Qed.

Lemma foldl_insert_lookup_inv (l : list (Request * Response)) (c : Cache) k r :
  foldl (λ c e, <[request_key e.1 := e.2]> c) c l !! k = Some r →
  c !! k = Some r ∨ ∃ e, e ∈ l ∧ request_key e.1 = k ∧ e.2 = r.
Proof.
  revert c. induction l as [|e l IH]; intros c Hk; [by left|].
  simpl in Hk. apply IH in Hk as [Hk|(e' & He' & Hkey & Hr)].
  - destruct (decide (request_key e.1 = k)) as [Heq|Hne].
    + rewrite Heq, lookup_insert_eq in Hk. simplify_eq.
      right. exists e. split; [left|done].
    + rewrite lookup_insert_ne in Hk by done. by left.
  - right. exists e'. split; [by right|done].
Qed.

Lemma all_fetched_ok os l :
  all_fetched os = Some l → Forall (λ e, ok e.2 = true) l.
Proof.
  revert l. induction os as [|[r [resp|]] os IH]; intros l; simpl.
  - intros [= <-]. constructor.
  - destruct (addable resp) eqn:Hok; [|done].
    destruct (all_fetched os) as [l'|]; [|done].
    intros [= <-]. constructor; [|by apply IH].
    simpl. unfold addable in Hok. by apply andb_true_iff in Hok as [? _].
  - done.
Qed.

End Lookup.

Section InstallFacts.
Implicit Types (net : Network) (w : Worker).

(** The assets have no fragment: each is stored under its URL as written. *)
Lemma asset_key u :
  u ∈ ASSETS_TO_CACHE → request_key (asset_request u) = ("GET", u).
Proof.
  intros Hu.
  assert (Forall (λ u, request_key (asset_request u) = ("GET", u)) ASSETS_TO_CACHE)
    as Hall by (repeat constructor).
  rewrite Forall_forall in Hall. by apply Hall.
Qed.

(** What a successful install leaves in the current cache. *)
Lemma install_success net w :
  phase (install net w) = Waiting →
  ∃ l,
    all_fetched (install_outcomes net w) = Some l ∧
    l.*1 = asset_request <$> ASSETS_TO_CACHE ∧
    cache_of CACHE_NAME (caches (install net w))
    = foldl (λ c e, <[request_key e.1 := e.2]> c)
        (cache_of CACHE_NAME (caches w)) l.
Proof.
  rewrite install_unfold. cbn zeta.
  destruct (all_fetched (install_outcomes net w)) as [l|] eqn:Hl; [|done].
  intros _. exists l. split_and!; [done| |].
  - pose proof (all_fetched_Some _ _ Hl) as Hos.
    assert (l.*1 = (install_outcomes net w).*1) as ->.
    { rewrite Hos, <-list_fmap_compose. by apply list_fmap_ext. }
    apply fetch_each_requests.
  - simpl. by rewrite cache_of_put_each, cache_of_open.
Qed.

End InstallFacts.

Section Serving.
Implicit Types (net : Network) (w : Worker) (request : Request).

Lemma fetch_handler_miss net w request :
  caches_match (caches w) (request_key request) = None →
  (fetch_handler net w request).2 = network_answer net (net_log w) request ∧
  net_log (fetch_handler net w request).1 = net_log w ++ [request].
Proof.
  intros Hmiss. unfold fetch_handler, network_answer. rewrite Hmiss.
  repeat (case_match; simpl; try done).
Qed.

Lemma fetch_handler_other_caches net w request name :
  name ≠ CACHE_NAME →
  cache_of name (caches (fetch_handler net w request).1) = cache_of name (caches w).
Proof.
  intros Hne. unfold fetch_handler.
  repeat (case_match; simpl; try done).
  by rewrite cache_of_put_ne.
Qed.

Lemma step_all_ok net w w' :
  sw_step net w w' →
  all_ok (cache_of CACHE_NAME (caches w)) →
  all_ok (cache_of CACHE_NAME (caches w')).
Proof.
  intros Hstep Hok. destruct Hstep as [w Hph|w Hph|w request Hph].
  - rewrite install_unfold. cbn zeta.
    destruct (all_fetched (install_outcomes net w)) as [l|] eqn:Hl; simpl.
    + rewrite cache_of_put_each, cache_of_open.
      apply all_fetched_ok in Hl. clear Hph.
      revert Hok. generalize (cache_of CACHE_NAME (caches w)).
      induction Hl as [|e l He Hl IH]; intros c Hc; [done|].
      simpl. apply IH. by apply map_Forall_insert_2.
    + by rewrite cache_of_open.
  - simpl. by rewrite cache_of_purge.
  - unfold fetch_handler.
    destruct (caches_match (caches w) (request_key request)); [done|].
    destruct (net (net_log w) request) as [response|]; [|done].
    destruct (is_api request); [done|].
    destruct (Z.eqb_spec (status response) 200) as [Heq|Hne]; [|done]. simpl.
    rewrite cache_of_put. case_decide; [|done].
    apply map_Forall_insert_2; [|done].
    unfold ok. rewrite Heq. done.
Qed.

(** X1. Once the install has gone through and the worker is activated,
    every asset of [ASSETS_TO_CACHE] is answered from the cache, with the ok
    response the install got for it, in every later state and whatever the
    network does by then: no request is sent. *)
Theorem precached_assets_served_offline
    net (s0 : CacheStorage) w' request u :
  wf_storage s0 →
  phase (install net (init_worker s0)) = Waiting →
  rtc (sw_step net) (activate (install net (init_worker s0))) w' →
  u ∈ ASSETS_TO_CACHE →
  request_key request = ("GET", u) →
  ∃ response,
    (asset_request u, Some response) ∈ install_outcomes net (init_worker s0) ∧
    ok response = true ∧
    fetch_handler net w' request = (w', Responded response).
Proof.
  intros Hwf Hph Hsteps Hu Hkey.
  destruct (install_success net (init_worker s0) Hph) as (l & Hl & Hreqs & Hcache).
  assert (asset_request u ∈ l.*1) as Hin
    by (rewrite Hreqs; by apply list_elem_of_fmap_2).
  apply list_elem_of_fmap in Hin as ([r response] & Hr & Hin).
  simpl in Hr. subst r. exists response.
  assert (reachable net s0 (install net (init_worker s0))) as Hreach1
    by (eapply rtc_l; [by apply step_install|apply rtc_refl]).
  split_and!.
  - rewrite (all_fetched_Some _ _ Hl).
    by apply (list_elem_of_fmap_2 (λ e, (e.1, Some e.2)) _ (asset_request u, response)).
  - apply all_fetched_ok in Hl. rewrite Forall_forall in Hl. by apply (Hl _ Hin).
  - destruct (active_future net (activate (install net (init_worker s0))) w'
               eq_refl Hsteps) as [Hph' Hkeep].
    assert (lifecycle_inv w') as Hinv.
    { apply (reachable_inv net s0); [done|]. unfold reachable.
      etrans; [exact Hreach1|]. eapply rtc_l; [by apply step_activate|done]. }
    apply fetch_handler_hit.
    rewrite (caches_match_single CACHE_NAME) by (by apply Hinv).
    apply Hkeep. simpl. rewrite cache_of_purge, Hcache, Hkey.
    rewrite <-(asset_key u Hu).
    apply foldl_insert_lookup; [|done].
    rewrite Hreqs. apply assets_distinct.
Qed.

(** X2. When no cache called [CACHE_NAME] existed before the install, the
    cache of the freshly activated worker holds exactly the GET requests of
    [ASSETS_TO_CACHE]: any other request is a miss. *)
Theorem fresh_cache_holds_the_manifest net (s0 : CacheStorage) k :
  wf_storage s0 →
  CACHE_NAME ∉ caches_keys s0 →
  phase (install net (init_worker s0)) = Waiting →
  is_Some (caches_match (caches (activate (install net (init_worker s0)))) k)
  ↔ ∃ u, u ∈ ASSETS_TO_CACHE ∧ k = ("GET", u).
Proof.
  intros Hwf Hfresh Hph.
  destruct (install_success net (init_worker s0) Hph) as (l & Hl & Hreqs & Hcache).
  rewrite activate_caches; [|by apply install_wf|].
  2:{ rewrite install_keys. apply caches_open_keys_in. }
  assert (∀ c : Cache, caches_match [(CACHE_NAME, c)] k = c !! k) as Hone
    by (intros c; simpl; by destruct (c !! k)).
  rewrite Hone, Hcache. simpl caches.
  rewrite (cache_of_absent CACHE_NAME s0 Hfresh).
  split.
  - intros [r Hr].
    apply foldl_insert_lookup_inv in Hr as [Hr|(e & He & Hkey & _)];
      [by rewrite lookup_empty in Hr|].
    assert (e.1 ∈ asset_request <$> ASSETS_TO_CACHE) as Hin
      by (rewrite <-Hreqs; by apply list_elem_of_fmap_2).
    apply list_elem_of_fmap in Hin as (u & Hu & Hin).
    exists u. split; [done|]. by rewrite <-Hkey, Hu, asset_key.
  - intros (u & Hu & ->).
    assert (asset_request u ∈ l.*1) as Hin
      by (rewrite Hreqs; by apply list_elem_of_fmap_2).
    apply list_elem_of_fmap in Hin as ([r response] & Hr & Hin).
    simpl in Hr. subst r.
    rewrite <-(asset_key u Hu).
    rewrite (foldl_insert_lookup l ∅ (asset_request u) response); [eauto| |done].
    rewrite Hreqs. apply assets_distinct.
Qed.

(** X3. An answer the handler does not keep is asked for again: after a
    miss answered by a rejected fetch, by an API response or by a status
    other than 200, the caller gets the network's answer, the caches are as
    before, and the next fetch of the same request goes to the network
    again. *)
Theorem unkept_answer_is_asked_again net w request :
  caches_match (caches w) (request_key request) = None →
  not_kept net (net_log w) request = true →
  let first := fetch_handler net w request in
  first.2 = network_answer net (net_log w) request ∧
  caches first.1 = caches w ∧
  (fetch_handler net first.1 request).2
    = network_answer net (net_log w ++ [request]) request ∧
  net_log (fetch_handler net first.1 request).1 = net_log w ++ [request; request].
Proof.
  intros Hmiss Hnot first.
  destruct (fetch_handler_miss net w request Hmiss) as [Hres Hlog].
  assert (caches first.1 = caches w) as Hsame.
  { unfold first, fetch_handler. rewrite Hmiss. unfold not_kept in Hnot.
    destruct (net (net_log w) request) as [response|]; [|done].
    destruct (is_api request); [done|]. simpl in Hnot.
    by destruct (status response =? 200)%Z. }
  assert (caches_match (caches first.1) (request_key request) = None) as Hmiss'
    by by rewrite Hsame.
  destruct (fetch_handler_miss net first.1 request Hmiss') as [Hres' Hlog'].
  split_and!; [done|done| |].
  - rewrite Hres'. unfold first. by rewrite Hlog.
  - rewrite Hlog'. unfold first. by rewrite Hlog, <-app_assoc.
Qed.


(** X5. The install handler leaves the other caches alone: the caches that
    existed keep their names, order and contents, and the only cache it may
    add is [CACHE_NAME], which it creates even when the install fails. *)
Theorem install_leaves_other_caches net w :
  caches_keys (caches (install net w))
  = caches_keys (caches w)
    ++ (if decide (CACHE_NAME ∈ caches_keys (caches w)) then [] else [CACHE_NAME]) ∧
  ∀ name, name ≠ CACHE_NAME →
    cache_of name (caches (install net w)) = cache_of name (caches w).
Proof.
  split.
  - rewrite install_keys. unfold caches_open, caches_keys.
    case_decide; [by rewrite app_nil_r|]. by rewrite fmap_app.
  - intros name Hne. rewrite install_unfold. cbn zeta.
    destruct (all_fetched (install_outcomes net w)); simpl.
    + by rewrite cache_of_put_each_ne, cache_of_open.
    + by rewrite cache_of_open.
Qed.

(** X6. The fetch handler writes to the current cache only: it deletes no
    cache, creates none but [CACHE_NAME], leaves the contents of every
    other cache as they were, and never replaces or drops an entry of the
    current cache. *)
Theorem fetch_touches_only_current_cache net w request :
  let after := (fetch_handler net w request).1 in
  (caches_keys (caches after) = caches_keys (caches w) ∨
   caches_keys (caches after) = caches_keys (caches w) ++ [CACHE_NAME]) ∧
  (∀ name, name ≠ CACHE_NAME →
     cache_of name (caches after) = cache_of name (caches w)) ∧
  (∀ k stored,
     cache_of CACHE_NAME (caches w) !! k = Some stored →
     cache_of CACHE_NAME (caches after) !! k = Some stored) ∧
  phase after = phase w.
Proof.
  intros after. split_and!.
  - unfold after, fetch_handler.
    repeat (case_match; simpl; try (by left)).
    rewrite cache_put_keys. unfold caches_open, caches_keys.
    case_decide; [by left|right]. by rewrite fmap_app.
  - intros name Hne. by apply fetch_handler_other_caches.
  - intros k stored. apply fetch_handler_keeps.
  - apply fetch_handler_phase.
Qed.

(** X7. The activate handler sends nothing to the network and keeps the
    contents of the current cache; running it again changes nothing more;
    and when no cache is called [CACHE_NAME] it leaves no cache at all. *)
Theorem activate_purges_without_network w :
  net_log (activate w) = net_log w ∧
  cache_of CACHE_NAME (caches (activate w)) = cache_of CACHE_NAME (caches w) ∧
  caches (activate (activate w)) = caches (activate w) ∧
  (CACHE_NAME ∉ caches_keys (caches w) → caches (activate w) = []).
Proof.
  split_and!; [done|apply cache_of_purge|apply purge_idempotent|].
  intros Hnot. simpl. rewrite purge_filter. by apply filter_name_absent.
Qed.

(** X8. No error response is ever served from the cache: when the current
    cache held only ok responses before the install (for instance, did not
    exist), every response the active worker finds in its caches has a
    status in 200-299. *)
Theorem only_ok_responses_served_from_cache
    net (s0 : CacheStorage) w k response :
  wf_storage s0 →
  all_ok (cache_of CACHE_NAME s0) →
  reachable net s0 w →
  phase w = Active →
  caches_match (caches w) k = Some response →
  ok response = true.
Proof.
  intros Hwf Hok Hreach Hph Hhit.
  assert (all_ok (cache_of CACHE_NAME (caches w))) as Hok'.
  { eapply (rtc_ind_r (λ w, all_ok (cache_of CACHE_NAME (caches w))));
      [| |exact Hreach]; [done|].
    intros y z _ Hstep IH. by eapply step_all_ok. }
  pose proof (reachable_inv net s0 w Hwf Hreach) as Hinv.
  rewrite (caches_match_single CACHE_NAME) in Hhit by (by apply Hinv).
  by apply Hok' in Hhit.
Qed.

End Serving.

Section ServingInstances.
Import Scenario.

Lemma installed_waiting : phase (install net_up (init_worker old_storage)) = Waiting.
Proof. reflexivity. Defined.

Lemma precached_assets_served_offline_witness :
  ∃ response,
    (asset_request "/index.html", Some response)
      ∈ install_outcomes net_up (init_worker old_storage) ∧
    ok response = true ∧
    fetch_handler net_up active (asset_request "/index.html")
    = (active, Responded response).
Proof.
  apply (precached_assets_served_offline net_up old_storage active
           (asset_request "/index.html") "/index.html").
  - exact old_storage_wf.
  - exact installed_waiting.
  - apply rtc_refl.
  - apply list_elem_of_In. vm_compute. tauto.
  - reflexivity.
Defined.

(** The script the widget loads, [/js/mobicard-scanner.js], is not among the
    pre-cached assets; [/mobicard-scanner.js] is. *)
Lemma fresh_cache_holds_the_manifest_witness :
  ¬ is_Some (caches_match (caches active) ("GET", "/js/mobicard-scanner.js")) ∧
  is_Some (caches_match (caches active) ("GET", "/mobicard-scanner.js")).
Proof.
  assert (CACHE_NAME ∉ caches_keys old_storage) as Hfresh
    by (by apply (bool_decide_unpack _); vm_compute).
  split.
  - intros Hsome.
    apply (fresh_cache_holds_the_manifest net_up old_storage _
             old_storage_wf Hfresh installed_waiting) in Hsome
      as (u & Hu & Heq).
    apply list_elem_of_In in Hu. vm_compute in Hu.
    simplify_eq. intuition discriminate.
  - apply (fresh_cache_holds_the_manifest net_up old_storage _
             old_storage_wf Hfresh installed_waiting).
    exists "/mobicard-scanner.js". split; [|done].
    apply list_elem_of_In. vm_compute. tauto.
Defined.

Lemma unkept_answer_is_asked_again_witness :
  let first := fetch_handler net_up active post_scan in
  first.2 = network_answer net_up (net_log active) post_scan ∧
  caches first.1 = caches active ∧
  (fetch_handler net_up first.1 post_scan).2
    = network_answer net_up (net_log active ++ [post_scan]) post_scan ∧
  net_log (fetch_handler net_up first.1 post_scan).1
    = net_log active ++ [post_scan; post_scan].
Proof.
  apply (unkept_answer_is_asked_again net_up active post_scan); by vm_compute.
Defined.


Lemma only_ok_responses_served_from_cache_witness :
  ok r200 = true.
Proof.
  apply (only_ok_responses_served_from_cache net_up old_storage active
           ("GET", "/styles.css") r200).
  - exact old_storage_wf.
  - assert (cache_of CACHE_NAME old_storage = ∅) as -> by (by vm_compute).
    apply map_Forall_empty.
  - exact active_reachable.
  - reflexivity.
  - by vm_compute.
Defined.

End ServingInstances.

End CacheExtras.

(** * Further properties of the queue *)

Module QueueExtras.
Import ScanQueue Background QueueProofs.

Section Drains.
Implicit Types (env : Env) (st : SyncState) (scan r : JsObject).

Lemma delivered_turn env st scan :
  all_delivered env →
  acknowledged env st scan = true ∧ removal_succeeds env st scan = true.
Proof.
  intros [Hnet Hdel]. unfold acknowledged, removal_succeeds.
  destruct (Hnet (trace st) (resubmission scan)) as (response & -> & Hok).
  by rewrite Hdel.
Qed.

Lemma delivered_visited_gone env st (visited : list JsObject) r :
  all_delivered env → r ∈ visited →
  r ∉ pending (db (foldl (sync_one env) st visited)).
Proof.
  intros Henv. revert st.
  induction visited as [|x visited IH]; intros st Hr Hin.
  - by apply elem_of_nil in Hr.
  - simpl in Hin. apply elem_of_cons in Hr as [->|Hr].
    + apply (sublist_subseteq _ _ (drain_sublist env _ visited)) in Hin.
      destruct (delivered_turn env st x Henv) as [Hack Hrm].
      by apply (sync_one_removed env st x).
    + by apply (IH (sync_one env st x)).
Qed.

Lemma delivered_drain env st :
  all_delivered env → pending (db (syncScans env st)) = [].
Proof.
  intros Henv. destruct (pending (db (syncScans env st))) as [|r rest] eqn:Hleft;
    [done|exfalso].
  assert (r ∈ pending (db (syncScans env st))) as Hin by (rewrite Hleft; left).
  pose proof Hin as Hin'.
  apply (sublist_subseteq _ _ (drain_sublist env st (db_getAll (db st)))) in Hin'.
  by apply (delivered_visited_gone env st (db_getAll (db st)) r Henv).
Qed.

Lemma offline_fold env st (visited : list JsObject) :
  network_down env →
  foldl (sync_one env) st visited
  = {| db := db st; trace := trace st ++ failed_attempts visited |}.
Proof.
  intros Hdown. revert st.
  induction visited as [|x visited IH]; intros st.
  - unfold failed_attempts. simpl. rewrite app_nil_r. by destruct st.
  - simpl. rewrite IH. unfold sync_one. rewrite Hdown. simpl.
    unfold failed_attempts. csimpl. by rewrite <-app_assoc.
Qed.

Lemma refused_fold env st (visited : list JsObject) :
  all_refused env →
  ∃ events,
    foldl (sync_one env) st visited = {| db := db st; trace := trace st ++ events |} ∧
    Forall (λ e, is_fetch e = true) events ∧
    length events = length visited.
Proof.
  intros Href. revert st.
  induction visited as [|x visited IH]; intros st.
  - exists []. rewrite app_nil_r. by destruct st.
  - simpl.
    destruct (Href (trace st) (resubmission x)) as (response & Hnet & Hok).
    assert (sync_one env st x
            = {| db := db st;
                 trace := trace st ++ [EvFetch (resubmission x) (Some response)] |})
      as -> by (unfold sync_one; by rewrite Hnet, Hok).
    destruct (IH {| db := db st;
                    trace := trace st ++ [EvFetch (resubmission x) (Some response)] |})
      as (events & -> & Hall & Hlen).
    exists (EvFetch (resubmission x) (Some response) :: events). simpl.
    split_and!; [by rewrite <-app_assoc|by constructor|by rewrite Hlen].
Qed.

Lemma saved_record_call scanData now k :
  resubmission (<["id" := JNumber k]> (pending_record scanData now))
  = {| call_url := get scanData "url"; call_method := "POST";
       call_headers := get scanData "headers"; call_body := get scanData "body" |}.
Proof.
  unfold resubmission. rewrite !stored_record_fields by done.
  unfold pending_record, get. by simplify_map_eq.
Qed.

(** X9. A drain only removes records: what is left is a sub-sequence of
    what was pending (same records, same order), the key generator is not
    touched, ids stay distinct, and the trace is only extended. *)
Theorem drain_only_removes env st :
  pending (db (syncScans env st)) `sublist_of` pending (db st) ∧
  key_generator (db (syncScans env st)) = key_generator (db st) ∧
  (wf_db (db st) → wf_db (db (syncScans env st))) ∧
  ∃ events, trace (syncScans env st) = trace st ++ events.
Proof.
  split_and!.
  - apply drain_sublist.
  - apply drain_key_generator.
  - unfold wf_db, ids. intros Hwf.
    apply (sublist_NoDup _ ((λ r, get r "id") <$> pending (db st))); [done|].
    apply fmap_sublist, drain_sublist.
  - destruct (drain_trace env st (db_getAll (db st))) as (events & Htr & _).
    by exists events.
Qed.

(** X10. When every resubmission is answered ok and every removal goes
    through, one drain empties the store, having sent each pending record
    once, in order. *)
Theorem delivered_drain_empties_store env st :
  all_delivered env →
  pending (db (syncScans env st)) = [] ∧
  ∃ events,
    trace (syncScans env st) = trace st ++ events ∧
    fetches events = resubmission <$> pending (db st).
Proof.
  intros Henv. split; [by apply delivered_drain|apply drain_trace].
Qed.

(** X11. A drain while the network is down loses nothing: every fetch
    throws, the store is left exactly as it was, and the trace gets one
    failed attempt and one console error per pending record, in order. *)
Theorem drain_while_offline_keeps_queue env st :
  network_down env →
  db (syncScans env st) = db st ∧
  trace (syncScans env st) = trace st ++ failed_attempts (pending (db st)).
Proof.
  intros Hdown. unfold syncScans, db_getAll. by rewrite offline_fold.
Qed.

(** X12. An answer with a status outside 200-299 keeps the record and is
    not reported: when every resubmission is answered that way, the store
    is unchanged and the drain does nothing but its fetches, one per
    record, with no removal and no console error. *)
Theorem refused_drain_is_silent env st :
  all_refused env →
  db (syncScans env st) = db st ∧
  ∃ events,
    trace (syncScans env st) = trace st ++ events ∧
    Forall (λ e, is_fetch e = true) events ∧
    length events = length (pending (db st)).
Proof.
  intros Href.
  destruct (refused_fold env st (db_getAll (db st)) Href)
    as (events & Heq & Hall & Hlen).
  unfold syncScans. rewrite Heq. simpl. split; [done|]. by exists events.
Qed.

(** X13. A scan saved while offline is replayed by the next drain after
    the records that were already pending, as a POST carrying the url,
    headers and body of the scan data, whatever the outcomes are. *)
Theorem saved_scan_replayed_with_its_data env now (this : Component)
    (scanData : JsObject) (p : Platform) (t : list Event) :
  let saved := (saveForOffline false now this scanData p).1 in
  ∃ events,
    trace (syncScans env {| db := store saved; trace := t |}) = t ++ events ∧
    fetches events
    = (resubmission <$> pending (store p))
      ++ [{| call_url := get scanData "url"; call_method := "POST";
             call_headers := get scanData "headers";
             call_body := get scanData "body" |}].
Proof.
  intros saved.
  destruct (drain_trace env {| db := store saved; trace := t |} (pending (store saved)))
    as (events & Htr & Hfs).
  exists events. split; [done|]. rewrite Hfs. unfold saved. simpl.
  rewrite fmap_app. csimpl. by rewrite saved_record_call.
Qed.

(** X14. [saveForOffline] copies the url, headers and body of the scan data
    and nothing else: the record it builds has exactly the properties url,
    headers, body and timestamp whatever the scan data holds (a missing
    one is stored as undefined), and any other property of the scan data,
    such as a method, does not reach the record. *)
Theorem saved_record_ignores_other_fields (scanData : JsObject) now k v :
  k ≠ "url" → k ≠ "headers" → k ≠ "body" →
  pending_record (<[k := v]> scanData) now = pending_record scanData now ∧
  dom (pending_record scanData now) = {[ "url"; "headers"; "body"; "timestamp" ]} ∧
  pending_record scanData now !! "url" = Some (get scanData "url") ∧
  get ∅ "url" = JUndefined.
Proof.
  intros Hu Hh Hb. split_and!.
  - unfold pending_record, get. by rewrite !lookup_insert_ne by done.
  - unfold pending_record. rewrite !dom_insert_L, dom_empty_L. set_solver.
  - unfold pending_record. by simplify_map_eq.
  - done.
Qed.

End Drains.

Section DrainInstances.
Import Scenario MoreScenario.

Lemma env_delivering_ok : all_delivered env_delivering.
Proof. split; [intros t call; by exists r200|done]. Defined.

Lemma delivered_drain_empties_store_witness :
  pending (db (syncScans env_delivering queued)) = [] ∧
  ∃ events,
    trace (syncScans env_delivering queued) = trace queued ++ events ∧
    fetches events = resubmission <$> pending (db queued).
Proof.
  apply (delivered_drain_empties_store env_delivering queued).
  exact env_delivering_ok.
Defined.

Lemma drain_while_offline_keeps_queue_witness :
  db (syncScans env_down queued) = db queued ∧
  trace (syncScans env_down queued)
  = trace queued ++ failed_attempts (pending (db queued)).
Proof.
  apply (drain_while_offline_keeps_queue env_down queued). by intros t call.
Defined.

Lemma refused_drain_is_silent_witness :
  db (syncScans env_refusing queued) = db queued ∧
  ∃ events,
    trace (syncScans env_refusing queued) = trace queued ++ events ∧
    Forall (λ e, is_fetch e = true) events ∧
    length events = length (pending (db queued)).
Proof.
  apply (refused_drain_is_silent env_refusing queued).
  intros t call. by exists r500.
Defined.

(** A method in the scan data does not reach the stored record. *)
Lemma saved_record_ignores_other_fields_witness :
  pending_record (<["method" := JString "PUT"]> (scan_data "card-1")) 1700000000000
  = pending_record (scan_data "card-1") 1700000000000.
Proof.
  destruct (saved_record_ignores_other_fields (scan_data "card-1")
              1700000000000 "method" (JString "PUT")) as [Hsame _]; done.
Defined.

End DrainInstances.

End QueueExtras.

(** * Properties of the widget and of the sync event *)

Module WidgetProofs.
Import ScanQueue Background Widget QueueProofs.

Section Connectivity.
Implicit Types (this : Scanner) (p : Platform) (c : Scanner * Platform).

Lemma handleNetworkChange_store status this p :
  store (handleNetworkChange status this p).2 = store p.
Proof. unfold handleNetworkChange. by repeat case_match. Qed.

Lemma widget_step_tags c c' :
  widget_step c c' →
  Forall (λ tag, tag = "sync-scans") (sync_registered c.2) →
  Forall (λ tag, tag = "sync-scans") (sync_registered c'.2).
Proof.
  intros Hstep Htags. inversion Hstep as
    [status this p|onLine now scanData this p|this p|e this p|this p|this p];
    subst; simpl in *; try done.
  - unfold handleNetworkChange. repeat case_match; simpl; try done.
    apply Forall_app. split; [done|]. by apply Forall_singleton.
  - unfold saveForOffline. destruct onLine; simpl; [done|].
    case_match; [|done]. apply Forall_app. split; [done|]. by apply Forall_singleton.
Qed.

(** X15. The widget and the worker agree on the tag: whatever the widget
    does, every tag it has given to [sync.register] is ['sync-scans'], for
    which the worker's [sync] listener starts a drain; for any other tag the
    listener does nothing. *)
Theorem registered_tags_start_a_drain c c' :
  rtc widget_step c c' →
  Forall (λ tag, tag = "sync-scans") (sync_registered c.2) →
  (∀ tag, tag ∈ sync_registered c'.2 →
     ∀ env st, sync_listener env tag st = syncScans env st) ∧
  (∀ tag env st, tag ≠ "sync-scans" → sync_listener env tag st = st).
Proof.
  intros Hsteps Htags. split.
  - assert (Forall (λ tag, tag = "sync-scans") (sync_registered c'.2)) as Htags'.
    { revert Htags.
      eapply (rtc_ind_l (λ c, Forall (λ tag, tag = "sync-scans") (sync_registered c.2) →
                              Forall (λ tag, tag = "sync-scans") (sync_registered c'.2)));
        [| |exact Hsteps]; [done|].
      intros x y Hstep _ IH Hx. by eapply IH, widget_step_tags. }
    intros tag Htag env st. rewrite Forall_forall in Htags'.
    rewrite (Htags' tag Htag). unfold sync_listener. by rewrite decide_True.
  - intros tag env st Hne. unfold sync_listener. by rewrite decide_False.
Qed.

(** X16. Without a sync registration nothing in the widget asks for a
    drain: a scan saved offline is queued, but neither the save nor the
    later return of connectivity registers a sync. *)
Theorem no_sync_without_registration now (scanData : JsObject) this p :
  syncRegistration (component this) = false →
  let saved := (saveForOffline false now (component this) scanData p).1 in
  let back_online := handleNetworkChange "online" this saved in
  length (pending (store back_online.2)) = S (length (pending (store p))) ∧
  sync_registered back_online.2 = sync_registered p ∧
  networkStatus back_online.1 = "online".
Proof.
  intros Hnone saved back_online.
  unfold back_online, saved, handleNetworkChange, saveForOffline.
  rewrite Hnone. simpl. rewrite length_app. simpl. split_and!; [lia|done|done].
Qed.

(** X17. End to end: with a sync registration and an empty queue, a scan
    saved offline registers ['sync-scans']; when the worker gets that sync
    event and the server accepts the scan, the drain sends exactly one
    request, a POST with the url, headers and body of the scan data, and
    the queue is empty again. *)
Theorem queued_scan_delivered_on_sync env now (this : Component)
    (scanData : JsObject) p (t : list Event) :
  syncRegistration this = true →
  pending (store p) = [] →
  all_delivered env →
  let saved := (saveForOffline false now this scanData p).1 in
  ∃ tag,
    last (sync_registered saved) = Some tag ∧
    pending (db (sync_listener env tag {| db := store saved; trace := t |})) = [] ∧
    ∃ events,
      trace (sync_listener env tag {| db := store saved; trace := t |}) = t ++ events ∧
      fetches events
      = [{| call_url := get scanData "url"; call_method := "POST";
            call_headers := get scanData "headers";
            call_body := get scanData "body" |}].
Proof.
  intros Hreg Hempty Henv saved. exists "sync-scans".
  unfold sync_listener. rewrite decide_True by done. split_and!.
  - unfold saved, saveForOffline. simpl. rewrite Hreg. apply last_snoc.
  - by apply QueueExtras.delivered_drain.
  - destruct (drain_trace env {| db := store saved; trace := t |} (pending (store saved)))
      as (events & Htr & Hfs).
    exists events. split; [done|]. rewrite Hfs. unfold saved. simpl.
    rewrite Hempty. csimpl. by rewrite QueueExtras.saved_record_call.
Qed.

End Connectivity.

Section InstallPrompt.
Implicit Types (this : Scanner) (p : Platform) (c : Scanner * Platform).

Lemma count_effect_app x (l1 l2 : list Effect) :
  count_effect x (l1 ++ l2) = count_effect x l1 + count_effect x l2.
Proof. unfold count_effect. by rewrite filter_app, length_app. Qed.

Lemma showInstallPrompt_fields this :
  effects (showInstallPrompt this) = effects this ∧
  deferredPrompt (showInstallPrompt this) = deferredPrompt this ∧
  isPWA (showInstallPrompt this) = isPWA this.
Proof. unfold showInstallPrompt. by repeat case_match. Qed.

Lemma handleNetworkChange_fields status this p :
  effects (handleNetworkChange status this p).1 = effects this ∧
  deferredPrompt (handleNetworkChange status this p).1 = deferredPrompt this ∧
  isPWA (handleNetworkChange status this p).1 = isPWA this ∧
  shadowRoot (handleNetworkChange status this p).1 = shadowRoot this.
Proof. unfold handleNetworkChange. by repeat case_match. Qed.

(** X18. In standalone display mode the install button never appears:
    whatever happens to the widget, no install button is added to the
    shadow root. *)
Theorem standalone_never_shows_install_button c c' :
  rtc widget_step c c' →
  isPWA c.1 = true →
  InstallButton ∉ shadowRoot c.1 →
  isPWA c'.1 = true ∧ InstallButton ∉ shadowRoot c'.1.
Proof.
  intros Hsteps.
  eapply (rtc_ind_l (λ c, isPWA c.1 = true → InstallButton ∉ shadowRoot c.1 →
                          isPWA c'.1 = true ∧ InstallButton ∉ shadowRoot c'.1));
    [| |exact Hsteps]; [done|].
  intros x y Hstep _ IH Hpwa Hnone.
  inversion Hstep as
    [status this p|onLine now scanData this p|this p|e this p|this p|this p];
    subst; simpl in *; apply IH; simpl.
  - by destruct (handleNetworkChange_fields status this p) as (_ & _ & -> & _).
  - by destruct (handleNetworkChange_fields status this p) as (_ & _ & _ & ->).
  - done.
  - done.
  - done.
  - done.
  - unfold on_beforeinstallprompt, showInstallPrompt. simpl. by rewrite Hpwa.
  - unfold on_beforeinstallprompt, showInstallPrompt. simpl. by rewrite Hpwa.
  - unfold click_install, installPWA. by repeat case_match.
  - unfold click_install, installPWA. by repeat case_match.
  - done.
  - intros Hin. apply list_elem_of_singleton in Hin. done.
Qed.

(** X19. A [beforeinstallprompt] event is prompted at most once: counting
    calls of [installPWA] run to their end, the number of [prompt()] calls
    plus the prompt still held never exceeds the number of events received,
    and once a prompt has been used a further press on the button does
    nothing. *)
Theorem each_prompt_event_used_once c c' :
  rtc widget_step c c' →
  effects c.1 = [] →
  deferredPrompt c.1 = None →
  (count_effect Prompt (effects c'.1) + prompts_held c'.1
   ≤ count_effect PreventDefault (effects c'.1))%nat
  ∧ installPWA (installPWA c'.1) = installPWA c'.1.
Proof.
  intros Hsteps Hnil Hnone. split.
  - assert (count_effect Prompt (effects c.1) + prompts_held c.1
            ≤ count_effect PreventDefault (effects c.1))%nat as Hstart
      by (unfold prompts_held; rewrite Hnil, Hnone; done).
    clear Hnil Hnone. revert Hstart.
    eapply (rtc_ind_l (λ c,
      (count_effect Prompt (effects c.1) + prompts_held c.1
        ≤ count_effect PreventDefault (effects c.1))%nat →
      (count_effect Prompt (effects c'.1) + prompts_held c'.1
        ≤ count_effect PreventDefault (effects c'.1))%nat));
      [| |exact Hsteps]; [done|].
    intros x y Hstep _ IH Hle. apply IH. clear IH.
    unfold prompts_held in *.
    inversion Hstep as
      [status this p|onLine now scanData this p|this p|e this p|this p|this p];
      subst; simpl in *; try done.
    + by destruct (handleNetworkChange_fields status this p) as (-> & -> & _).
    + destruct (showInstallPrompt_fields
                  {| component := component this; isPWA := isPWA this;
                     networkStatus := networkStatus this;
                     deferredPrompt := Some e; shadowRoot := shadowRoot this;
                     effects := effects this ++ [PreventDefault] |})
        as (He & Hd & _).
      unfold on_beforeinstallprompt. rewrite He, Hd. simpl.
      rewrite !count_effect_app.
      change (count_effect Prompt [PreventDefault]) with 0.
      change (count_effect PreventDefault [PreventDefault]) with 1.
      destruct (deferredPrompt this); lia.
    + unfold click_install, installPWA. case_decide; [|done].
      destruct (deferredPrompt this) as [e|] eqn:Hheld; simpl;
        [|by rewrite Hheld].
      rewrite !count_effect_app.
      assert (count_effect PreventDefault
                (Prompt :: (if decide (outcome e = "accepted")
                            then [ConsoleLog "PWA installed"] else [])) = 0)
        as -> by (by case_decide).
      assert (count_effect Prompt
                (Prompt :: (if decide (outcome e = "accepted")
                            then [ConsoleLog "PWA installed"] else [])) = 1)
        as -> by (by case_decide).
      lia.
  - unfold installPWA. destruct (deferredPrompt c'.1) eqn:Hheld; simpl; [done|].
    by rewrite Hheld.
Qed.

(** X20. The offline indicator is only as fresh as the last render: a
    change of connectivity updates [networkStatus] but not the shadow root,
    so after the element was connected online and the network is lost, the
    markup still has no offline indicator. *)
Theorem offline_indicator_not_updated this p :
  networkStatus this ≠ "offline" →
  let lost := (handleNetworkChange "offline" (connectedCallback this) p).1 in
  networkStatus lost = "offline" ∧
  shadowRoot lost = [Markup false] ∧
  shadowRoot (connectedCallback lost) = [Markup true].
Proof.
  intros Hon lost. unfold lost, handleNetworkChange, connectedCallback, render.
  simpl. by rewrite bool_decide_eq_false_2.
Qed.

(** X21. Rendering replaces the content of the shadow root: an install
    button added before is gone, while the prompt event is still held, so
    after the element is connected again a press on the (former) button
    can no longer start the prompt. *)
Theorem rerender_drops_install_button e this :
  isPWA this = false →
  let prompted := on_beforeinstallprompt e this in
  InstallButton ∈ shadowRoot prompted ∧
  deferredPrompt (connectedCallback prompted) = Some e ∧
  (InstallButton ∉ shadowRoot (connectedCallback prompted)) ∧
  click_install (connectedCallback prompted) = connectedCallback prompted.
Proof.
  intros Hpwa prompted.
  assert (InstallButton ∉ shadowRoot (connectedCallback prompted)) as Hgone.
  { simpl. intros Hin. by apply list_elem_of_singleton in Hin. }
  split_and!; [| |done|].
  - unfold prompted, on_beforeinstallprompt, showInstallPrompt. simpl.
    rewrite Hpwa. simpl. set_solver.
  - unfold prompted, on_beforeinstallprompt, showInstallPrompt. simpl.
    by rewrite Hpwa.
  - unfold click_install. by rewrite decide_False.
Qed.

End InstallPrompt.

Section WidgetInstances.
Import Scenario MoreScenario.

Lemma registered_tags_start_a_drain_witness :
  (∀ tag, tag ∈ sync_registered platform1 →
     ∀ env st, sync_listener env tag st = syncScans env st) ∧
  (∀ tag env st, tag ≠ "sync-scans" → sync_listener env tag st = st).
Proof.
  apply (registered_tags_start_a_drain
           (scanner widget false, platform0) (scanner widget false, platform1)).
  - eapply rtc_l; [|apply rtc_refl].
    exact (widget_save false 1700000000000 (scan_data "card-1")
             (scanner widget false) platform0).
  - constructor.
Defined.

Lemma no_sync_without_registration_witness :
  let saved :=
    (saveForOffline false 1700000000000 widget_without_sync
       (scan_data "card-1") platform0).1 in
  let back_online :=
    handleNetworkChange "online" (scanner widget_without_sync false) saved in
  length (pending (store back_online.2)) = 1 ∧
  sync_registered back_online.2 = [] ∧
  networkStatus back_online.1 = "online".
Proof.
  by apply (no_sync_without_registration 1700000000000 (scan_data "card-1")
              (scanner widget_without_sync false) platform0).
Defined.

Lemma queued_scan_delivered_on_sync_witness :
  ∃ tag,
    last (sync_registered platform1) = Some tag ∧
    pending (db (sync_listener env_delivering tag
                   {| db := store platform1; trace := [] |})) = [] ∧
    ∃ events,
      trace (sync_listener env_delivering tag
               {| db := store platform1; trace := [] |}) = [] ++ events ∧
      fetches events
      = [{| call_url := get (scan_data "card-1") "url"; call_method := "POST";
            call_headers := get (scan_data "card-1") "headers";
            call_body := get (scan_data "card-1") "body" |}].
Proof.
  apply (queued_scan_delivered_on_sync env_delivering 1700000000000 widget
           (scan_data "card-1") platform0 []).
  - reflexivity.
  - reflexivity.
  - exact QueueExtras.env_delivering_ok.
Defined.

Lemma standalone_never_shows_install_button_witness :
  isPWA (on_beforeinstallprompt accepted (scanner widget true)) = true ∧
  InstallButton ∉ shadowRoot (on_beforeinstallprompt accepted (scanner widget true)).
Proof.
  apply (standalone_never_shows_install_button
           (scanner widget true, platform0)
           (on_beforeinstallprompt accepted (scanner widget true), platform0)).
  - eapply rtc_l; [|apply rtc_refl].
    exact (widget_prompt accepted (scanner widget true) platform0).
  - reflexivity.
  - apply not_elem_of_nil.
Defined.

Lemma each_prompt_event_used_once_witness :
  let used := click_install (on_beforeinstallprompt accepted (scanner widget false)) in
  (count_effect Prompt (effects used) + prompts_held used
   ≤ count_effect PreventDefault (effects used))%nat
  ∧ installPWA (installPWA used) = installPWA used.
Proof.
  intros used.
  apply (each_prompt_event_used_once
           (scanner widget false, platform0) (used, platform0)).
  - eapply rtc_l;
      [exact (widget_prompt accepted (scanner widget false) platform0)|].
    eapply rtc_l; [|apply rtc_refl].
    exact (widget_click (on_beforeinstallprompt accepted (scanner widget false))
             platform0).
  - reflexivity.
  - reflexivity.
Defined.

Lemma offline_indicator_not_updated_witness :
  let lost :=
    (handleNetworkChange "offline"
       (connectedCallback (scanner widget false)) platform0).1 in
  networkStatus lost = "offline" ∧
  shadowRoot lost = [Markup false] ∧
  shadowRoot (connectedCallback lost) = [Markup true].
Proof.
  by apply (offline_indicator_not_updated (scanner widget false) platform0).
Defined.

Lemma rerender_drops_install_button_witness :
  let prompted := on_beforeinstallprompt accepted (scanner widget false) in
  InstallButton ∈ shadowRoot prompted ∧
  deferredPrompt (connectedCallback prompted) = Some accepted ∧
  (InstallButton ∉ shadowRoot (connectedCallback prompted)) ∧
  click_install (connectedCallback prompted) = connectedCallback prompted.
Proof.
  by apply (rerender_drops_install_button accepted (scanner widget false)).
Defined.

End WidgetInstances.

End WidgetProofs.
